(** * A shallow embedding of the DES engine ([des/des_core.py]) and of its
    modes of operation ([des/modes.py]).

    Conventions of the embedding:
    - a Python [bytes] value is a [list Z] whose elements are in [0,256);
    - a bit string ['0101...'] is a [list bool], most significant bit first;
    - every operation that can raise in Python returns a [Result], the
      exception being named by its Python class. *)

From Stdlib Require Import ZArith List Lia Bool.
Import ListNotations.
Open Scope Z_scope.

(** ** Exceptions and the error monad *)

Inductive Exc : Type :=
| ValueError
| IndexError
| OverflowError
| ZeroDivisionError
| BinasciiError.

Inductive Result (A : Type) : Type :=
| Ok : A -> Result A
| Err : Exc -> Result A.
Arguments Ok {A} _.
Arguments Err {A} _.

Definition bind {A B : Type} (m : Result A) (k : A -> Result B) : Result B :=
  match m with
  | Ok a => k a
  | Err e => Err e
  end.

Notation "x <- m ;; k" := (bind m (fun x => k))
  (at level 61, m at next level, right associativity).

Definition bytes := list Z.
Definition bits := list bool.

Definition is_byte (b : Z) : Prop := 0 <= b < 256.

(** Python's [zip] followed by an element-wise operation: stops at the
    shorter list. *)
Fixpoint zipWith {A B C : Type} (f : A -> B -> C) (l1 : list A) (l2 : list B)
  : list C :=
  match l1, l2 with
  | a :: l1', b :: l2' => f a b :: zipWith f l1' l2'
  | _, _ => []
  end.

(** The slices [l[i:i+n] for i in range(0, len(l), n)], for [n >= 1]. *)
Fixpoint slices_fuel {A : Type} (fuel n : nat) (l : list A) : list (list A) :=
  match fuel with
  | O => []
  | S fuel' =>
      match l with
      | [] => []
      | _ => firstn n l :: slices_fuel fuel' n (skipn n l)
      end
  end.

Definition slices {A : Type} (n : nat) (l : list A) : list (list A) :=
  slices_fuel (length l) n l.

(** ** Integers and bit strings *)

(** [int(s, 2)] on a non-empty string of ['0'] and ['1'] (every call site of
    the source passes a non-empty string). *)
Definition bin_val (s : bits) : Z :=
  fold_left (fun acc (b : bool) => 2 * acc + (if b then 1 else 0)) s 0.

(** The [n] low bits of [z], most significant first. *)
Fixpoint bits_of_int (n : nat) (z : Z) : bits :=
  match n with
  | O => []
  | S m => Z.testbit z (Z.of_nat m) :: bits_of_int m z
  end.

(** [f'{z:0wb}'] for [z >= 0]: the binary digits of [z], left-padded with
    zeros to width [w]; a number needing more digits keeps all of them. *)
Definition fmt_bin (w : nat) (z : Z) : bits :=
  bits_of_int (Nat.max w (Z.to_nat (Z.log2 z + 1))) z.

(** ** Tables (section 1 of [des_core.py]) *)

Definition P_BOX : list nat :=
  [16; 7; 20; 21; 29; 12; 28; 17;
   1; 15; 23; 26; 5; 18; 31; 10;
   2; 8; 24; 14; 32; 27; 3; 9;
   19; 13; 30; 6; 22; 11; 4; 25]%nat.

Definition E_BOX : list nat :=
  [32; 1; 2; 3; 4; 5;
   4; 5; 6; 7; 8; 9;
   8; 9; 10; 11; 12; 13;
   12; 13; 14; 15; 16; 17;
   16; 17; 18; 19; 20; 21;
   20; 21; 22; 23; 24; 25;
   24; 25; 26; 27; 28; 29;
   28; 29; 30; 31; 32; 1]%nat.

Definition S_BOXES : list (list Z) := [
  [14;4;13;1;2;15;11;8;3;10;6;12;5;9;0;7;
   0;15;7;4;14;2;13;1;10;6;12;11;9;5;3;8;
   4;1;14;8;13;6;2;11;15;12;9;7;3;10;5;0;
   15;12;8;2;4;9;1;7;5;11;3;14;10;0;6;13];
  [15;1;8;14;6;11;3;4;9;7;2;13;12;0;5;10;
   3;13;4;7;15;2;8;14;12;0;1;10;6;9;11;5;
   0;14;7;11;10;4;13;1;5;8;12;6;9;3;2;15;
   13;8;10;1;3;15;4;2;11;6;7;12;0;5;14;9];
  [10;0;9;14;6;3;15;5;1;13;12;7;11;4;2;8;
   13;7;0;9;3;4;6;10;2;8;5;14;12;11;15;1;
   13;6;4;9;8;15;3;0;11;1;2;12;5;10;14;7;
   1;10;13;0;6;9;8;7;4;15;14;3;11;5;2;12];
  [7;13;14;3;0;6;9;10;1;2;8;5;11;12;4;15;
   13;8;11;5;6;15;0;3;4;7;2;12;1;10;14;9;
   10;6;9;0;12;11;7;13;15;1;3;14;5;2;8;4;
   3;15;0;6;10;1;13;8;9;4;5;11;12;7;2;14];
  [2;12;4;1;7;10;11;6;8;5;3;15;13;0;14;9;
   14;11;2;12;4;7;13;1;5;0;15;10;3;9;8;6;
   4;2;1;11;10;13;7;8;15;9;12;5;6;3;0;14;
   11;8;12;7;1;14;2;13;6;15;0;9;10;4;5;3];
  [12;1;10;15;9;2;6;8;0;13;3;4;14;7;5;11;
   10;15;4;2;7;12;9;5;6;1;13;14;0;11;3;8;
   9;14;15;5;2;8;12;3;7;0;4;10;1;13;11;6;
   4;3;2;12;9;5;15;10;11;14;1;7;6;0;8;13];
  [4;11;2;14;15;0;8;13;3;12;9;7;5;10;6;1;
   13;0;11;7;4;9;1;10;14;3;5;12;2;15;8;6;
   1;4;11;13;12;3;7;14;10;15;6;8;0;5;9;2;
   6;11;13;8;1;4;10;7;9;5;0;15;14;2;3;12];
  [13;2;8;4;6;15;11;1;10;9;3;14;5;0;12;7;
   1;15;13;8;10;3;7;4;12;5;6;11;0;14;9;2;
   7;11;4;1;9;12;14;2;0;6;10;13;15;3;5;8;
   2;1;14;7;4;10;8;13;15;12;9;0;3;5;6;11]
].

Definition PC_1 : list nat :=
  [57;49;41;33;25;17;9;
   1;58;50;42;34;26;18;
   10;2;59;51;43;35;27;
   19;11;3;60;52;44;36;
   63;55;47;39;31;23;15;
   7;62;54;46;38;30;22;
   14;6;61;53;45;37;29;
   21;13;5;28;20;12;4]%nat.

Definition PC_2 : list nat :=
  [14;17;11;24;1;5;
   3;28;15;6;21;10;
   23;19;12;4;26;8;
   16;7;27;20;13;2;
   41;52;31;37;47;55;
   30;40;51;45;33;48;
   44;49;39;56;34;53;
   46;42;50;36;29;32]%nat.

Definition ROTATIONS : list nat := [1; 1; 2; 2; 2; 2; 2; 2; 1; 2; 2; 2; 2; 2; 2; 1]%nat.

(** ** Helpers (section 2 of [des_core.py]) *)

Definition bytes_to_bit_string (data : bytes) : bits :=
  concat (map (fmt_bin 8) data).

(** [ljust] to a multiple of 8 with ['0'], then [int(chunk, 2)] per chunk
    (an 8-digit chunk is below 256, so [bytes(...)] accepts it). *)
Definition bit_string_to_bytes (bit_string : bits) : bytes :=
  let len := length bit_string in
  let s := if (Nat.modulo len 8 =? 0)%nat then bit_string
           else bit_string ++ repeat false ((len + 7) / 8 * 8 - len) in
  map bin_val (slices 8 s).

(** [n %= len(bit_string)] is Python's floored modulo: for a non-empty
    string it maps every integer [n], negative ones included, into
    [[0, len)]. *)
Definition rotate_left (bit_string : bits) (n : Z) : Result bits :=
  match length bit_string with
  | O => Err ZeroDivisionError
  | len =>
      let n := Z.to_nat (Z.modulo n (Z.of_nat len)) in
      Ok (skipn n bit_string ++ firstn n bit_string)
  end.

(** [''.join(data_str[i-1] for i in table)]; every table entry is [>= 1], so
    the index [i-1] is never negative. *)
Fixpoint permute (data_str : bits) (table : list nat) : Result bits :=
  match table with
  | [] => Ok []
  | i :: table' =>
      match nth_error data_str (i - 1) with
      | None => Err IndexError
      | Some b => rest <- permute data_str table';; Ok (b :: rest)
      end
  end.

(** ** The DES class (section 3 of [des_core.py]) *)

Record DES : Type := mkDES {
  block_size : Z;
  rounds : Z;
  keylen : Z;
  iv : option bytes;
  key : bytes;
  subkeys : list bits
}.

(** The loop of [_generate_subkeys]: round [i] rotates the current halves
    [C], [D] and appends [PC_2] of their concatenation. *)
Fixpoint subkey_loop (idx : list nat) (C D : bits) : Result (list bits) :=
  match idx with
  | [] => Ok []
  | i :: idx' =>
      let r := nth (Nat.modulo i (length ROTATIONS)) ROTATIONS O in
      C' <- rotate_left C (Z.of_nat r);;
      D' <- rotate_left D (Z.of_nat r);;
      k <- permute (C' ++ D') PC_2;;
      ks <- subkey_loop idx' C' D';;
      Ok (k :: ks)
  end.

Definition generate_subkeys (key : bytes) (rounds : Z) : Result (list bits) :=
  let key_str := bytes_to_bit_string key in
  pc1_key <- permute key_str PC_1;;
  let C := firstn 28 pc1_key in
  let D := skipn 28 pc1_key in
  subkey_loop (seq 0 (Z.to_nat rounds)) C D.

(** [DES.__init__]: the key is zero-padded or truncated to 8 bytes. *)
Definition DES_init (key : bytes) (block_size rounds keylen : Z)
  (iv : option bytes) : Result DES :=
  let key :=
    if (length key <? 8)%nat then key ++ repeat 0 (8 - length key)
    else if (8 <? length key)%nat then firstn 8 key
    else key in
  ks <- generate_subkeys key rounds;;
  Ok (mkDES block_size rounds keylen iv key ks).

(** The loop of [_feistel_function] over the eight S-boxes; [acc] is
    [s_box_output]. *)
Fixpoint sbox_loop (xor_result : bits) (idx : list nat) (acc : bits)
  : Result bits :=
  match idx with
  | [] => Ok acc
  | i :: idx' =>
      let chunk := firstn 6 (skipn (i * 6) xor_result) in
      if (length chunk <? 6)%nat then Err ValueError else
      let row := bin_val [nth 0 chunk false; nth 5 chunk false] in
      let col := bin_val (firstn 4 (skipn 1 chunk)) in
      let index := row * 16 + col in
      match nth_error S_BOXES i with
      | None => Err IndexError
      | Some sbox =>
          if Z.of_nat (length sbox) <=? index then Err ValueError else
          let s_val := nth (Z.to_nat index) sbox 0 in
          sbox_loop xor_result idx' (acc ++ fmt_bin 4 s_val)
      end
  end.

Definition feistel_function (R K : bits) : Result bits :=
  expanded_R <- permute R E_BOX;;
  let xor_result := fmt_bin 48 (Z.lxor (bin_val expanded_R) (bin_val K)) in
  if negb (length xor_result =? 48)%nat then Err ValueError else
  s_box_output <- sbox_loop xor_result (seq 0 8) [];;
  permute s_box_output P_BOX.

(** [f'{int(L,2) ^ int(f_res,2):032b}'] *)
Definition xor32 (L f_res : bits) : bits :=
  fmt_bin 32 (Z.lxor (bin_val L) (bin_val f_res)).

(** The round loop of [_process_block]: [for i in range(self.rounds)], with
    [keys[i]] raising [IndexError] past the end of [keys]. *)
Fixpoint round_loop (keys : list bits) (idx : list nat) (L R : bits)
  : Result (bits * bits) :=
  match idx with
  | [] => Ok (L, R)
  | i :: idx' =>
      match nth_error keys i with
      | None => Err IndexError
      | Some k =>
          f_res <- feistel_function R k;;
          round_loop keys idx' R (xor32 L f_res)
      end
  end.

Definition process_block (self : DES) (block : bytes) (decrypt_mode : bool)
  : Result bytes :=
  if negb (length block =? 8)%nat then Err ValueError else
  let block_str := bytes_to_bit_string block in
  let L := firstn 32 block_str in
  let R := skipn 32 block_str in
  let keys := if decrypt_mode then rev (subkeys self) else subkeys self in
  LR <- round_loop keys (seq 0 (Z.to_nat (rounds self))) L R;;
  let '(L, R) := LR in
  Ok (bit_string_to_bytes (R ++ L)).

Definition encrypt_block (self : DES) (block : bytes) : Result bytes :=
  process_block self block false.

Definition decrypt_block (self : DES) (block : bytes) : Result bytes :=
  process_block self block true.

(** ** [base64.b64encode] and [base64.b64decode] (RFC 4648 alphabet)

    Characters are ASCII codes, as [b64encode] returns [bytes]. *)

Definition b64_char (v : Z) : Z :=
  if v <? 26 then 65 + v
  else if v <? 52 then 97 + (v - 26)
  else if v <? 62 then 48 + (v - 52)
  else if v =? 62 then 43
  else 47.

Definition b64_value (c : Z) : Result Z :=
  if (65 <=? c) && (c <=? 90) then Ok (c - 65)
  else if (97 <=? c) && (c <=? 122) then Ok (c - 97 + 26)
  else if (48 <=? c) && (c <=? 57) then Ok (c - 48 + 52)
  else if c =? 43 then Ok 62
  else if c =? 47 then Ok 63
  else Err BinasciiError.

Definition PAD_CHAR : Z := 61.

Fixpoint b64encode (data : bytes) : bytes :=
  match data with
  | a :: b :: c :: rest =>
      [b64_char (Z.shiftr a 2);
       b64_char (Z.lor (Z.shiftl (Z.land a 3) 4) (Z.shiftr b 4));
       b64_char (Z.lor (Z.shiftl (Z.land b 15) 2) (Z.shiftr c 6));
       b64_char (Z.land c 63)] ++ b64encode rest
  | [a; b] =>
      [b64_char (Z.shiftr a 2);
       b64_char (Z.lor (Z.shiftl (Z.land a 3) 4) (Z.shiftr b 4));
       b64_char (Z.shiftl (Z.land b 15) 2);
       PAD_CHAR]
  | [a] =>
      [b64_char (Z.shiftr a 2);
       b64_char (Z.shiftl (Z.land a 3) 4);
       PAD_CHAR; PAD_CHAR]
  | [] => []
  end.

(** Decoding of padded groups of four alphabet characters.  The standard
    library's decoder also skips characters outside the alphabet; input of
    that kind is reported as [BinasciiError] here, which does not matter for
    the output of [b64encode]. *)
Fixpoint b64decode (data : bytes) : Result bytes :=
  match data with
  | [] => Ok []
  | c0 :: c1 :: c2 :: c3 :: rest =>
      s0 <- b64_value c0;;
      s1 <- b64_value c1;;
      let a := Z.lor (Z.shiftl s0 2) (Z.shiftr s1 4) in
      if (c2 =? PAD_CHAR) && (c3 =? PAD_CHAR) then
        match rest with [] => Ok [a] | _ => Err BinasciiError end
      else
      s2 <- b64_value c2;;
      let b := Z.lor (Z.shiftl (Z.land s1 15) 4) (Z.shiftr s2 2) in
      if c3 =? PAD_CHAR then
        match rest with [] => Ok [a; b] | _ => Err BinasciiError end
      else
      s3 <- b64_value c3;;
      let c := Z.lor (Z.shiftl (Z.land s2 3) 6) s3 in
      out <- b64decode rest;;
      Ok (a :: b :: c :: out)
  | _ => Err BinasciiError
  end.

(** [DES.encrypt] and [DES.decrypt]: base64 of the reversed bytes. *)
Definition DES_encrypt (self : DES) (plaintext : bytes) : bytes :=
  b64encode (rev plaintext).

Definition DES_decrypt (self : DES) (ciphertext : bytes) : Result bytes :=
  out <- b64decode ciphertext;;
  Ok (rev out).

(** ** Padding ([des/modes.py]) *)

(** [bytes([padding_len])] raises unless [0 <= padding_len < 256]; Python's
    [%] is the floored modulo [Z.modulo]. *)
Definition pad (data : bytes) (block_size : Z) : Result bytes :=
  if block_size =? 0 then Err ZeroDivisionError else
  let padding_len := block_size - Z.modulo (Z.of_nat (length data)) block_size in
  let padding_len := if padding_len =? 0 then block_size else padding_len in
  if (padding_len <? 0) || (256 <=? padding_len) then Err ValueError else
  Ok (data ++ repeat padding_len (Z.to_nat padding_len)).

Definition unpad (data : bytes) (block_size : Z) : bytes :=
  match data with
  | [] => []
  | _ =>
      let padding_len := last data 0 in
      if (padding_len <? 1) || (block_size <? padding_len)
         || (Z.of_nat (length data) <? padding_len)
      then data
      else firstn (length data - Z.to_nat padding_len) data
  end.

(** ** Modes of operation *)

Inductive ModeKind : Type := ECB | CBC | CFB | OFB | CTR.

Record Mode : Type := mkMode {
  kind : ModeKind;
  des : option DES;
  block_size_bytes : Z;
  mode_iv : option bytes
}.

(** [_BaseMode.__init__]: the IV is copied from the engine. *)
Definition BaseMode_init (k : ModeKind) (des_engine : option DES) : Mode :=
  match des_engine with
  | Some d => mkMode k (Some d) (Z.div (block_size d) 8) (iv d)
  | None => mkMode k None 0 None
  end.


(** [_get_blocks]; [range(0, n, step)] with a negative step is empty. *)
Definition get_blocks (self : Mode) (data : bytes) : Result (list bytes) :=
  if block_size_bytes self =? 0 then Err ValueError
  else if block_size_bytes self <? 0 then Ok []
  else Ok (slices (Z.to_nat (block_size_bytes self)) data).

(** [if not self.iv]: [None] and [b""] are both falsy. *)
Definition iv_truthy (v : option bytes) : option bytes :=
  match v with
  | Some (_ :: _) => v
  | _ => None
  end.

Definition bxor (a b : bytes) : bytes := zipWith Z.lxor a b.

Fixpoint mapM {A B : Type} (f : A -> Result B) (l : list A) : Result (list B) :=
  match l with
  | [] => Ok []
  | a :: l' => b <- f a;; bs <- mapM f l';; Ok (b :: bs)
  end.

Fixpoint cbc_encrypt_loop (d : DES) (previous_block : bytes) (blocks : list bytes)
  : Result (list bytes) :=
  match blocks with
  | [] => Ok []
  | block :: blocks' =>
      cipher_block <- encrypt_block d (bxor block previous_block);;
      rest <- cbc_encrypt_loop d cipher_block blocks';;
      Ok (cipher_block :: rest)
  end.

Fixpoint cbc_decrypt_loop (d : DES) (previous_block : bytes) (blocks : list bytes)
  : Result (list bytes) :=
  match blocks with
  | [] => Ok []
  | block :: blocks' =>
      decrypted_block <- decrypt_block d block;;
      rest <- cbc_decrypt_loop d block blocks';;
      Ok (bxor decrypted_block previous_block :: rest)
  end.

Fixpoint cfb_encrypt_loop (d : DES) (prev_cipher : bytes) (blocks : list bytes)
  : Result (list bytes) :=
  match blocks with
  | [] => Ok []
  | block :: blocks' =>
      encrypted_iv <- encrypt_block d prev_cipher;;
      let cipher_block := bxor block encrypted_iv in
      rest <- cfb_encrypt_loop d cipher_block blocks';;
      Ok (cipher_block :: rest)
  end.

Fixpoint cfb_decrypt_loop (d : DES) (prev_cipher : bytes) (blocks : list bytes)
  : Result (list bytes) :=
  match blocks with
  | [] => Ok []
  | block :: blocks' =>
      encrypted_iv <- encrypt_block d prev_cipher;;
      rest <- cfb_decrypt_loop d block blocks';;
      Ok (bxor block encrypted_iv :: rest)
  end.

Fixpoint ofb_loop (d : DES) (feedback : bytes) (blocks : list bytes)
  : Result (list bytes) :=
  match blocks with
  | [] => Ok []
  | block :: blocks' =>
      output_block <- encrypt_block d feedback;;
      rest <- ofb_loop d output_block blocks';;
      Ok (bxor block output_block :: rest)
  end.

(** [int.to_bytes(length, 'big')] (unsigned). *)
Fixpoint to_bytes_be (n : nat) (v : Z) : bytes :=
  match n with
  | O => []
  | S m => to_bytes_be m (Z.shiftr v 8) ++ [Z.land v 255]
  end.

Definition int_to_bytes (v length : Z) : Result bytes :=
  if length <? 0 then Err ValueError
  else if (v <? 0) || (256 ^ length <=? v) then Err OverflowError
  else Ok (to_bytes_be (Z.to_nat length) v).

(** [int.from_bytes(b, 'big')] *)
Definition int_from_bytes (b : bytes) : Z :=
  fold_left (fun acc x => acc * 256 + x) b 0.

Fixpoint ctr_loop (d : DES) (block_len counter : Z) (blocks : list bytes)
  : Result (list bytes) :=
  match blocks with
  | [] => Ok []
  | block :: blocks' =>
      counter_block <- int_to_bytes counter block_len;;
      output_block <- encrypt_block d counter_block;;
      rest <- ctr_loop d block_len (counter + 1) blocks';;
      Ok (bxor block output_block :: rest)
  end.

(** [encrypt] of each mode class. *)
Definition mode_encrypt (self : Mode) (plaintext : bytes) : Result bytes :=
  match des self with
  | None => Err ValueError
  | Some d =>
      match kind self with
      | ECB =>
          padded <- pad plaintext (block_size_bytes self);;
          blocks <- get_blocks self padded;;
          encrypted <- mapM (encrypt_block d) blocks;;
          Ok (concat encrypted)
      | k =>
          match iv_truthy (mode_iv self) with
          | None => Err ValueError
          | Some v =>
              padded <- pad plaintext (block_size_bytes self);;
              blocks <- get_blocks self padded;;
              out <- match k with
                     | CBC => cbc_encrypt_loop d v blocks
                     | CFB => cfb_encrypt_loop d v blocks
                     | OFB => ofb_loop d v blocks
                     | _ => ctr_loop d (block_size_bytes self)
                              (int_from_bytes v) blocks
                     end;;
              Ok (concat out)
          end
      end
  end.

(** [decrypt] of each mode class; [OFB.decrypt] and [CTR.decrypt] return
    [self.encrypt(ciphertext)]. *)
Definition mode_decrypt (self : Mode) (ciphertext : bytes) : Result bytes :=
  match kind self with
  | OFB | CTR => mode_encrypt self ciphertext
  | k =>
      match des self with
      | None => Err ValueError
      | Some d =>
          match k with
          | ECB =>
              blocks <- get_blocks self ciphertext;;
              decrypted <- mapM (decrypt_block d) blocks;;
              Ok (unpad (concat decrypted) (block_size_bytes self))
          | _ =>
              match iv_truthy (mode_iv self) with
              | None => Err ValueError
              | Some v =>
                  blocks <- get_blocks self ciphertext;;
                  out <- match k with
                         | CBC => cbc_decrypt_loop d v blocks
                         | _ => cfb_decrypt_loop d v blocks
                         end;;
                  Ok (unpad (concat out) (block_size_bytes self))
              end
          end
      end
  end.

(** ** Auxiliary definitions for the proofs *)

(** The Feistel rounds of [_process_block] as a walk over the key list. *)
Fixpoint loop_keys (keys : list bits) (L R : bits) : Result (bits * bits) :=
  match keys with
  | [] => Ok (L, R)
  | k :: keys' =>
      f_res <- feistel_function R k;;
      loop_keys keys' R (xor32 L f_res)
  end.

(** The key schedule as the spec describes it (section 4.1): [PC-1] selects
    two 28-bit halves; before subkey [i] both halves are left-rotated by
    [ROTATIONS[i mod 16]], on top of the rotations of the earlier rounds; subkey
    [i] is the [PC-2] selection of the concatenated halves. *)
Definition select (data_str : bits) (table : list nat) : bits :=
  map (fun i => nth (i - 1) data_str false) table.

Definition rotl (s : bits) (n : nat) : bits :=
  let n := Nat.modulo n (length s) in skipn n s ++ firstn n s.

Definition rotation_amount (i : nat) : nat := nth (Nat.modulo i 16) ROTATIONS O.

Fixpoint halves_after (C D : bits) (i : nat) : bits * bits :=
  match i with
  | O => (C, D)
  | S j =>
      let '(C', D') := halves_after C D j in
      (rotl C' (rotation_amount j), rotl D' (rotation_amount j))
  end.

Definition key_schedule_spec (key : bytes) (R : nat) : list bits :=
  let pc1 := select (bytes_to_bit_string key) PC_1 in
  map (fun i =>
         let '(C, D) := halves_after (firstn 28 pc1) (skipn 28 pc1) (S i) in
         select (C ++ D) PC_2)
      (seq 0 R).

(** CTR as the spec describes it (section 4.8): the keystream of block [i] is
    computed from the seed and [i] alone. *)
Definition ctr_keystream_block (d : DES) (seed : Z) (i : nat) : Result bytes :=
  counter_block <- int_to_bytes (seed + Z.of_nat i) 8;;
  encrypt_block d counter_block.

Definition ctr_encrypt_direct (d : DES) (seed : Z) (blocks : list bytes)
  : Result (list bytes) :=
  mapM (fun ib => ks <- ctr_keystream_block d seed (fst ib);; Ok (bxor (snd ib) ks))
       (combine (seq 0 (length blocks)) blocks).

(** Finite facts about the base64 bit slicing, checked over all byte values. *)
Definition b64_check_char (v : Z) : bool :=
  match b64_value (b64_char v) with
  | Ok w => (w =? v) && negb (b64_char v =? PAD_CHAR)
  | Err _ => false
  end.

Definition b64_check1 (a : Z) : bool :=
  let s0 := Z.shiftr a 2 in
  let s1 := Z.shiftl (Z.land a 3) 4 in
  (0 <=? s0) && (s0 <? 64) && (0 <=? s1) && (s1 <? 64) &&
  (Z.lor (Z.shiftl s0 2) (Z.shiftr s1 4) =? a) &&
  (Z.lor (Z.shiftl (Z.shiftr a 4) 4) (Z.land a 15) =? a) &&
  (Z.lor (Z.shiftl (Z.shiftr a 6) 6) (Z.land a 63) =? a) &&
  (0 <=? Z.land a 63) && (Z.land a 63 <? 64).

Definition b64_check_ab (a b : Z) : bool :=
  let s0 := Z.shiftr a 2 in
  let s1 := Z.lor (Z.shiftl (Z.land a 3) 4) (Z.shiftr b 4) in
  let s2 := Z.shiftl (Z.land b 15) 2 in
  (0 <=? s1) && (s1 <? 64) && (0 <=? s2) && (s2 <? 64) &&
  (Z.lor (Z.shiftl s0 2) (Z.shiftr s1 4) =? a) &&
  (Z.land s1 15 =? Z.shiftr b 4) &&
  (Z.lor (Z.shiftl (Z.land s1 15) 4) (Z.shiftr s2 2) =? b).

Definition b64_check_bc (b c : Z) : bool :=
  let s2 := Z.lor (Z.shiftl (Z.land b 15) 2) (Z.shiftr c 6) in
  (0 <=? s2) && (s2 <? 64) &&
  (Z.shiftr s2 2 =? Z.land b 15) && (Z.land s2 3 =? Z.shiftr c 6).

(** The concrete scenario of the spec: key [b"MYSECRET"], IV [b"12345678"],
    plaintext [b"HELLOALI"]. *)
Definition KEY0 : bytes := [77; 89; 83; 69; 67; 82; 69; 84].
Definition IV0 : bytes := [49; 50; 51; 52; 53; 54; 55; 56].
Definition HELLOALI : bytes := [72; 69; 76; 76; 79; 65; 76; 73].
Definition FF8 : bytes := [255; 255; 255; 255; 255; 255; 255; 255].

(** Engines built directly from the record, with or without an IV. *)
Definition ENGINE0 : DES := mkDES 64 16 64 (Some IV0) KEY0 [].
Definition ENGINE1 : DES := mkDES 64 8 64 None IV0 [].
Definition ENGINE_NOIV : DES := mkDES 64 16 64 None KEY0 [].
Definition ENGINE32 : DES := mkDES 32 16 64 (Some [1; 2; 3; 4]) KEY0 [].
Definition ENGINE_BS0 : DES := mkDES 0 16 64 (Some IV0) KEY0 [].
Definition ENGINE_R0 : DES := mkDES 64 0 64 None KEY0 [].

(** An 8-byte block of bytes. *)
Definition blk8 (b : bytes) : Prop := length b = 8%nat /\ Forall is_byte b.

(** The total left rotation of each key half after [i] rounds of
    [_generate_subkeys]. *)
Fixpoint cum_rotation (i : nat) : nat :=
  match i with
  | O => O
  | S j => (cum_rotation j + rotation_amount j)%nat
  end.

(** * Proofs *)

(** ** Bit strings *)

Section BitStrings.

Lemma bin_val_snoc (l : bits) (b : bool) :
  bin_val (l ++ [b]) = 2 * bin_val l + Z.b2z b.
Proof. unfold bin_val. rewrite fold_left_app. simpl. now destruct b. Qed.

Lemma bin_val_bound (l : bits) :
  0 <= bin_val l < 2 ^ Z.of_nat (length l).
Proof.
  induction l as [|b l IH] using rev_ind.
  - simpl. cbn. lia.
  - rewrite bin_val_snoc, length_app, Nat2Z.inj_add. simpl (length [b]).
    rewrite Z.pow_add_r, Z.pow_1_r by lia. destruct b; cbn [Z.b2z]; lia.
Qed.

Lemma bits_of_int_length (n : nat) (z : Z) : length (bits_of_int n z) = n.
Proof. induction n; simpl; auto. Qed.

Lemma bits_of_int_snoc (m : nat) (V : Z) (c : bool) :
  bits_of_int (S m) (2 * V + Z.b2z c) = bits_of_int m V ++ [c].
Proof.
  induction m as [|m IH].
  - cbn [bits_of_int app]. change (Z.of_nat 0) with 0. destruct c; cbn [Z.b2z].
    + now rewrite Z.testbit_odd_0.
    + now rewrite Z.add_0_r, Z.testbit_even_0.
  - change (bits_of_int (S (S m)) (2 * V + Z.b2z c)) with
      (Z.testbit (2 * V + Z.b2z c) (Z.of_nat (S m))
         :: bits_of_int (S m) (2 * V + Z.b2z c)).
    rewrite IH. cbn [bits_of_int app]. f_equal.
    rewrite Nat2Z.inj_succ.
    destruct c; cbn [Z.b2z].
    + rewrite Z.testbit_odd_succ by lia. reflexivity.
    + rewrite Z.add_0_r, Z.testbit_even_succ by lia. reflexivity.
Qed.

Lemma bits_of_int_bin_val (l : bits) : bits_of_int (length l) (bin_val l) = l.
Proof.
  induction l as [|b l IH] using rev_ind; [reflexivity|].
  rewrite length_app, Nat.add_comm, bin_val_snoc. simpl (length [b]).
  now rewrite bits_of_int_snoc, IH.
Qed.

Lemma fmt_bin_small (w : nat) (z : Z) :
  (1 <= w)%nat -> 0 <= z < 2 ^ Z.of_nat w -> fmt_bin w z = bits_of_int w z.
Proof.
  intros Hw Hz. unfold fmt_bin. f_equal.
  assert (Z.log2 z < Z.of_nat w).
  { destruct (Z.eq_dec z 0) as [->|Hnz]; [simpl; lia|].
    apply Z.log2_lt_pow2; lia. }
  pose proof (Z.log2_nonneg z). lia.
Qed.

Lemma bits_of_int_lxor (n : nat) (x y : Z) :
  bits_of_int n (Z.lxor x y) =
  zipWith xorb (bits_of_int n x) (bits_of_int n y).
Proof. induction n; simpl; [reflexivity|]. now rewrite Z.lxor_spec, IHn. Qed.

Lemma lxor_bound (n x y : Z) :
  0 <= n -> 0 <= x < 2 ^ n -> 0 <= y < 2 ^ n -> 0 <= Z.lxor x y < 2 ^ n.
Proof.
  intros Hn Hx Hy.
  assert (0 <= Z.lxor x y) by (apply Z.lxor_nonneg; lia).
  split; [assumption|].
  destruct (Z.eq_dec (Z.lxor x y) 0) as [->|Hnz]; [lia|].
  apply Z.log2_lt_pow2; [lia|].
  assert (0 < n).
  { destruct (Z.eq_dec n 0) as [->|]; [|lia].
    simpl in Hx, Hy. assert (x = 0) as -> by lia. assert (y = 0) as -> by lia.
    simpl in Hnz. lia. }
  pose proof (Z.log2_lxor x y ltac:(lia) ltac:(lia)).
  assert (Z.log2 x < n).
  { destruct (Z.eq_dec x 0) as [->|]; [simpl; lia|]. apply Z.log2_lt_pow2; lia. }
  assert (Z.log2 y < n).
  { destruct (Z.eq_dec y 0) as [->|]; [simpl; lia|]. apply Z.log2_lt_pow2; lia. }
  lia.
Qed.

(** [f'{int(a,2) ^ int(b,2):0wb}'] is the bitwise xor of two [w]-digit
    strings. *)
Lemma fmt_bin_lxor (w : nat) (a b : bits) :
  (1 <= w)%nat -> length a = w -> length b = w ->
  fmt_bin w (Z.lxor (bin_val a) (bin_val b)) = zipWith xorb a b.
Proof.
  intros Hw Ha Hb. subst w.
  pose proof (bin_val_bound a). pose proof (bin_val_bound b).
  rewrite fmt_bin_small by (auto; apply lxor_bound; rewrite ?Hb in *; lia).
  rewrite bits_of_int_lxor.
  rewrite bits_of_int_bin_val, <- Hb, bits_of_int_bin_val. reflexivity.
Qed.

Lemma zipWith_length {A B C : Type} (f : A -> B -> C) l1 l2 :
  length (zipWith f l1 l2) = Nat.min (length l1) (length l2).
Proof.
  revert l2; induction l1; destruct l2; simpl; auto.
Qed.

Lemma zipWith_xorb_cancel (a b : bits) :
  length a = length b -> zipWith xorb (zipWith xorb a b) b = a.
Proof.
  revert b; induction a as [|x a IH]; destruct b as [|y b]; simpl;
    try discriminate; auto.
  intros H. f_equal; [destruct x, y; reflexivity | auto].
Qed.

Lemma xor32_cancel (L f : bits) :
  length L = 32%nat -> length f = 32%nat -> xor32 (xor32 L f) f = L.
Proof.
  intros HL Hf. unfold xor32.
  rewrite (fmt_bin_lxor 32 L f) by (auto; lia).
  rewrite fmt_bin_lxor; auto.
  - apply zipWith_xorb_cancel. congruence.
  - lia.
  - rewrite zipWith_length. lia.
Qed.

Lemma xor32_length (L f : bits) :
  length L = 32%nat -> length f = 32%nat -> length (xor32 L f) = 32%nat.
Proof.
  intros HL Hf. unfold xor32. rewrite fmt_bin_lxor by (auto; lia).
  rewrite zipWith_length. lia.
Qed.

End BitStrings.

(** ** Slices, bytes and bit strings *)

Section Conversions.

Lemma firstn_skipn_block {A : Type} (c r : list A) (n : nat) :
  length c = n -> firstn n (c ++ r) = c /\ skipn n (c ++ r) = r.
Proof.
  intros <-. rewrite firstn_app, skipn_app, firstn_all, skipn_all, Nat.sub_diag.
  simpl. now rewrite app_nil_r.
Qed.

Lemma slices_fuel_concat {A : Type} (n : nat) (L : list (list A)) (fuel : nat) :
  (0 < n)%nat -> Forall (fun c => length c = n) L -> (length L <= fuel)%nat ->
  slices_fuel fuel n (concat L) = L.
Proof.
  intros Hn HL. revert fuel.
  induction HL as [|c L Hc HL IH]; intros fuel Hf.
  - destruct fuel; reflexivity.
  - destruct fuel as [|fuel]; simpl in Hf; [lia|].
    simpl concat. destruct (firstn_skipn_block c (concat L) n Hc) as [H1 H2].
    destruct c as [|x c']; [simpl in Hc; lia|].
    cbn [slices_fuel app]. rewrite <- app_comm_cons in H1, H2.
    rewrite H1, H2, IH by lia. reflexivity.
Qed.

Lemma length_concat_uniform {A : Type} (n : nat) (L : list (list A)) :
  Forall (fun c => length c = n) L -> length (concat L) = (n * length L)%nat.
Proof.
  induction 1; simpl; [lia|]. rewrite length_app. lia.
Qed.

Lemma slices_concat {A : Type} (n : nat) (L : list (list A)) :
  (0 < n)%nat -> Forall (fun c => length c = n) L -> slices n (concat L) = L.
Proof.
  intros Hn HL. unfold slices. apply slices_fuel_concat; auto.
  rewrite (length_concat_uniform n) by auto. nia.
Qed.

Lemma split_uniform {A : Type} (n : nat) (k : nat) (l : list A) :
  length l = (k * n)%nat ->
  exists L, l = concat L /\ Forall (fun c => length c = n) L /\ length L = k.
Proof.
  revert l; induction k as [|k IH]; intros l Hl.
  - exists []. destruct l; simpl in *; [auto|lia].
  - destruct (IH (skipn n l)) as (L & HL1 & HL2 & HL3).
    { rewrite length_skipn. lia. }
    exists (firstn n l :: L). split; [|split].
    + simpl. now rewrite <- HL1, firstn_skipn.
    + constructor; auto. rewrite length_firstn. lia.
    + simpl. lia.
Qed.

Lemma byte_bits (b : Z) :
  is_byte b -> fmt_bin 8 b = bits_of_int 8 b /\ bin_val (bits_of_int 8 b) = b.
Proof.
  intros Hb. split.
  - apply fmt_bin_small; [lia|]. unfold is_byte in Hb. simpl. lia.
  - assert (Hc : forallb (fun n => bin_val (bits_of_int 8 (Z.of_nat n)) =? Z.of_nat n)
                   (seq 0 256) = true) by (vm_compute; reflexivity).
    rewrite forallb_forall in Hc. unfold is_byte in Hb.
    specialize (Hc (Z.to_nat b)). rewrite Z2Nat.id in Hc by lia.
    apply Z.eqb_eq, Hc, in_seq. lia.
Qed.

Lemma bytes_to_bit_string_bytes (B : bytes) :
  Forall is_byte B -> bytes_to_bit_string B = concat (map (bits_of_int 8) B).
Proof.
  intros HB. unfold bytes_to_bit_string. f_equal.
  induction HB; simpl; [reflexivity|]. f_equal; auto. now apply byte_bits.
Qed.

Lemma Forall_bits_of_int8 (B : bytes) :
  Forall (fun c => length c = 8%nat) (map (bits_of_int 8) B).
Proof.
  induction B; simpl; constructor; auto.
Qed.

Lemma bytes_to_bit_string_length (B : bytes) :
  Forall is_byte B -> length (bytes_to_bit_string B) = (8 * length B)%nat.
Proof.
  intros HB. rewrite bytes_to_bit_string_bytes by auto.
  rewrite (length_concat_uniform 8) by apply Forall_bits_of_int8.
  now rewrite length_map.
Qed.

Lemma bit_string_to_bytes_roundtrip (B : bytes) :
  Forall is_byte B -> bit_string_to_bytes (bytes_to_bit_string B) = B.
Proof.
  intros HB. unfold bit_string_to_bytes.
  rewrite bytes_to_bit_string_length by auto.
  replace (Nat.modulo (8 * length B) 8 =? 0)%nat with true
    by (symmetry; apply Nat.eqb_eq; rewrite Nat.mul_comm; apply Nat.Div0.mod_mul).
  rewrite bytes_to_bit_string_bytes by auto.
  rewrite slices_concat by (lia || apply Forall_bits_of_int8).
  rewrite map_map. induction HB; simpl; [reflexivity|].
  f_equal; auto. now apply byte_bits.
Qed.

Lemma bytes_to_bit_string_roundtrip (s : bits) (k : nat) :
  length s = (8 * k)%nat ->
  bytes_to_bit_string (bit_string_to_bytes s) = s /\
  Forall is_byte (bit_string_to_bytes s) /\
  length (bit_string_to_bytes s) = k.
Proof.
  intros Hs. unfold bit_string_to_bytes.
  replace (Nat.modulo (length s) 8 =? 0)%nat with true
    by (symmetry; apply Nat.eqb_eq; rewrite Hs, Nat.mul_comm; apply Nat.Div0.mod_mul).
  destruct (split_uniform 8 k s) as (L & -> & HL & Hk); [lia|].
  rewrite slices_concat by (auto; lia).
  unfold bytes_to_bit_string. rewrite map_map, length_map.
  split; [|split; [|assumption]].
  - f_equal. clear Hs Hk. induction HL as [|c L Hc HL IH]; simpl; [reflexivity|].
    f_equal; [|assumption].
    pose proof (bin_val_bound c) as Hb. rewrite Hc in Hb.
    rewrite fmt_bin_small by (simpl in Hb |- *; lia).
    rewrite <- Hc at 1. apply bits_of_int_bin_val.
  - clear Hs Hk. induction HL as [|c L Hc HL IH]; simpl; constructor; auto.
    pose proof (bin_val_bound c) as Hb. rewrite Hc in Hb. unfold is_byte.
    simpl in Hb. lia.
Qed.

(** [_permute] succeeds when every entry of the table indexes the string. *)
Lemma permute_ok (d : bits) (table : list nat) (m : nat) :
  length d = m ->
  forallb (fun i => (1 <=? i)%nat && (i <=? m)%nat) table = true ->
  permute d table = Ok (map (fun i => nth (i - 1) d false) table).
Proof.
  intros Hd. induction table as [|i table IH]; intros H; [reflexivity|].
  cbn [forallb] in H. cbn [permute map].
  apply andb_true_iff in H as [Hi Ht].
  apply andb_true_iff in Hi as [Hi1 Hi2].
  apply Nat.leb_le in Hi1. apply Nat.leb_le in Hi2.
  destruct (nth_error d (i - 1)) as [b|] eqn:E.
  - rewrite IH by auto. cbn [bind]. f_equal. f_equal.
    symmetry. apply nth_error_nth. assumption.
  - apply nth_error_None in E. lia.
Qed.

Lemma permute_length (d : bits) (table : list nat) (out : bits) :
  permute d table = Ok out -> length out = length table.
Proof.
  revert out; induction table as [|i table IH]; simpl; intros out H.
  - now injection H as <-.
  - destruct (nth_error d (i - 1)); [|discriminate].
    destruct (permute d table) as [r|]; simpl in H; [|discriminate].
    injection H as <-. simpl. f_equal. auto.
Qed.

End Conversions.

(** ** Key schedule *)

Section KeySchedule.

Lemma rotl_length (s : bits) (n : nat) : length (rotl s n) = length s.
Proof.
  unfold rotl. rewrite length_app, length_skipn, length_firstn.
  destruct (length s) eqn:E; [simpl; lia|].
  pose proof (Nat.mod_upper_bound n (S n0)). lia.
Qed.

Lemma rotate_left_ok (s : bits) (n : nat) :
  length s <> O -> rotate_left s (Z.of_nat n) = Ok (rotl s n).
Proof.
  intros H. unfold rotate_left, rotl. destruct (length s); [congruence|].
  rewrite <- Nat2Z.inj_mod, Nat2Z.id. reflexivity.
Qed.

Lemma select_length (d : bits) (t : list nat) : length (select d t) = length t.
Proof. apply length_map. Qed.

Lemma halves_after_length (C D : bits) (i : nat) :
  length C = 28%nat -> length D = 28%nat ->
  length (fst (halves_after C D i)) = 28%nat /\
  length (snd (halves_after C D i)) = 28%nat.
Proof.
  intros HC HD. induction i as [|i IH]; simpl; [auto|].
  destruct (halves_after C D i) as [C' D']. simpl in *.
  now rewrite !rotl_length.
Qed.

Lemma subkey_loop_spec (C0 D0 : bits) (n s : nat) :
  length C0 = 28%nat -> length D0 = 28%nat ->
  subkey_loop (seq s n) (fst (halves_after C0 D0 s)) (snd (halves_after C0 D0 s)) =
  Ok (map (fun i =>
             let '(C, D) := halves_after C0 D0 (S i) in select (C ++ D) PC_2)
          (seq s n)).
Proof.
  intros HC HD. revert s. induction n as [|n IH]; intros s; [reflexivity|].
  destruct (halves_after_length C0 D0 s HC HD) as [H1 H2].
  cbn [seq subkey_loop map].
  change (length ROTATIONS) with 16%nat.
  fold (rotation_amount s).
  rewrite !rotate_left_ok by lia.
  cbn [bind].
  rewrite (permute_ok _ _ 56).
  2:{ rewrite length_app, !rotl_length. lia. }
  2:{ reflexivity. }
  cbn [bind]. specialize (IH (S s)).
  cbn [halves_after] in IH |- *.
  destruct (halves_after C0 D0 s) as [C D]. cbn [fst snd] in *.
  rewrite IH. reflexivity.
Qed.

Lemma generate_subkeys_spec (key : bytes) (R : Z) :
  length key = 8%nat -> Forall is_byte key ->
  generate_subkeys key R = Ok (key_schedule_spec key (Z.to_nat R)).
Proof.
  intros Hl Hb. unfold generate_subkeys, key_schedule_spec.
  rewrite (permute_ok _ _ 64).
  2:{ rewrite bytes_to_bit_string_length by auto. lia. }
  2:{ reflexivity. }
  cbn [bind].
  set (pc1 := select (bytes_to_bit_string key) PC_1).
  assert (length pc1 = 56%nat) by (apply select_length).
  apply (subkey_loop_spec (firstn 28 pc1) (skipn 28 pc1) (Z.to_nat R) 0).
  - rewrite length_firstn. lia.
  - rewrite length_skipn. lia.
Qed.

Lemma key_schedule_spec_shape (key : bytes) (R : nat) :
  length (key_schedule_spec key R) = R /\
  Forall (fun k => length k = 48%nat) (key_schedule_spec key R).
Proof.
  unfold key_schedule_spec. split.
  - now rewrite length_map, length_seq.
  - apply Forall_map, Forall_forall. intros i _.
    destruct (halves_after _ _ (S i)). apply select_length.
Qed.

(** The key kept by [DES.__init__] is 8 bytes. *)
Lemma DES_key_normalised (key : bytes) :
  Forall is_byte key ->
  let key' :=
    if (length key <? 8)%nat then key ++ repeat 0 (8 - length key)
    else if (8 <? length key)%nat then firstn 8 key
    else key in
  length key' = 8%nat /\ Forall is_byte key'.
Proof.
  intros Hb key'. subst key'.
  destruct (length key <? 8)%nat eqn:E1; [|destruct (8 <? length key)%nat eqn:E2].
  - apply Nat.ltb_lt in E1. split.
    + rewrite length_app, repeat_length. lia.
    + apply Forall_app. split; auto. apply Forall_forall. intros x Hx.
      apply repeat_spec in Hx. subst. unfold is_byte. lia.
  - apply Nat.ltb_lt in E2. split.
    + rewrite length_firstn. lia.
    + rewrite <- (firstn_skipn 8 key) in Hb. apply Forall_app in Hb. tauto.
  - apply Nat.ltb_ge in E1. apply Nat.ltb_ge in E2. split; [lia|auto].
Qed.

Lemma DES_init_spec (k : bytes) (bs R kl : Z) (v : option bytes) :
  Forall is_byte k ->
  exists d, DES_init k bs R kl v = Ok d /\
    block_size d = bs /\ rounds d = R /\ keylen d = kl /\ iv d = v /\
    length (key d) = 8%nat /\ Forall is_byte (key d) /\
    subkeys d = key_schedule_spec (key d) (Z.to_nat R).
Proof.
  intros Hk. destruct (DES_key_normalised k Hk) as [Hl Hb].
  unfold DES_init.
  rewrite generate_subkeys_spec by auto. cbn [bind].
  eexists. split; [reflexivity|]. cbn. repeat split; auto.
Qed.

End KeySchedule.

(** ** The Feistel function and the block primitive *)

Section Block.

Lemma S_BOXES_shape :
  forallb (fun sb => (length sb =? 64)%nat &&
                     forallb (fun v => (0 <=? v) && (v <? 16)) sb) S_BOXES = true.
Proof. vm_compute. reflexivity. Qed.

Lemma S_BOXES_length : length S_BOXES = 8%nat.
Proof. reflexivity. Qed.

Lemma sbox_loop_ok (xr : bits) (idx : list nat) (acc : bits) :
  length xr = 48%nat -> Forall (fun i => (i < 8)%nat) idx ->
  exists out, sbox_loop xr idx acc = Ok out /\
              length out = (length acc + 4 * length idx)%nat.
Proof.
  intros Hxr Hidx. revert acc.
  induction Hidx as [|i idx Hi Hidx IH]; intros acc.
  - exists acc. split; [reflexivity|]. simpl. lia.
  - cbn [sbox_loop].
    set (chunk := firstn 6 (skipn (i * 6) xr)).
    assert (Hc : length chunk = 6%nat)
      by (unfold chunk; rewrite length_firstn, length_skipn; lia).
    rewrite Hc. cbn [Nat.ltb Nat.leb].
    set (row := bin_val [nth 0 chunk false; nth 5 chunk false]).
    set (col := bin_val (firstn 4 (skipn 1 chunk))).
    assert (Hrow : 0 <= row < 4)
      by (pose proof (bin_val_bound [nth 0 chunk false; nth 5 chunk false]) as H;
          simpl in H; unfold row; lia).
    assert (Hcol : 0 <= col < 16).
    { pose proof (bin_val_bound (firstn 4 (skipn 1 chunk))) as H.
      rewrite length_firstn, length_skipn, Hc in H.
      assert (E : 2 ^ Z.of_nat (Nat.min 4 (6 - 1)) = 16) by reflexivity.
      unfold col. lia. }
    destruct (nth_error S_BOXES i) as [sbox|] eqn:Es.
    2:{ apply nth_error_None in Es. rewrite S_BOXES_length in Es. lia. }
    pose proof S_BOXES_shape as Hsh. rewrite forallb_forall in Hsh.
    specialize (Hsh sbox (nth_error_In _ _ Es)).
    apply andb_true_iff in Hsh as [Hlen Hvals].
    apply Nat.eqb_eq in Hlen. rewrite forallb_forall in Hvals. rewrite Hlen.
    replace (Z.of_nat 64 <=? row * 16 + col) with false
      by (symmetry; apply Z.leb_gt; lia).
    set (s_val := nth (Z.to_nat (row * 16 + col)) sbox 0).
    assert (Hs : 0 <= s_val < 16).
    { assert (In s_val sbox) as Hin by (apply nth_In; lia).
      specialize (Hvals s_val Hin). apply andb_true_iff in Hvals as [H1 H2].
      apply Z.leb_le in H1. apply Z.ltb_lt in H2. lia. }
    rewrite fmt_bin_small by (simpl; lia).
    destruct (IH (acc ++ bits_of_int 4 s_val)) as (out & Ho & Hl).
    exists out. split; [assumption|].
    rewrite Hl, length_app, bits_of_int_length. simpl. lia.
Qed.

Lemma feistel_ok (R K : bits) :
  length R = 32%nat -> length K = 48%nat ->
  exists out, feistel_function R K = Ok out /\ length out = 32%nat.
Proof.
  intros HR HK. unfold feistel_function.
  rewrite (permute_ok R E_BOX 32 HR) by reflexivity. cbn [bind].
  set (ex := map (fun i => nth (i - 1) R false) E_BOX).
  assert (Hex : length ex = 48%nat) by (unfold ex; now rewrite length_map).
  rewrite fmt_bin_lxor by (auto; lia).
  rewrite zipWith_length, Hex, HK. cbn [Nat.min Nat.eqb negb].
  destruct (sbox_loop_ok (zipWith xorb ex K) (seq 0 8) [])
    as (out & Ho & Hl).
  { rewrite zipWith_length. lia. }
  { apply Forall_forall. intros i Hi. apply in_seq in Hi. lia. }
  rewrite Ho. cbn [bind]. simpl in Hl.
  rewrite (permute_ok out P_BOX 32 Hl) by reflexivity.
  eexists. split; [reflexivity|]. now rewrite length_map.
Qed.

Lemma feistel_length (R K f : bits) :
  feistel_function R K = Ok f -> length f = 32%nat.
Proof.
  unfold feistel_function. intros H.
  destruct (permute R E_BOX); cbn [bind] in H; [|discriminate].
  destruct (negb _); [discriminate|].
  destruct (sbox_loop _ _ _); cbn [bind] in H; [|discriminate].
  apply permute_length in H. exact H.
Qed.

Lemma round_loop_keys (ks pre : list bits) (L R : bits) :
  round_loop (pre ++ ks) (seq (length pre) (length ks)) L R = loop_keys ks L R.
Proof.
  revert pre L R. induction ks as [|k ks IH]; intros pre L R; [reflexivity|].
  cbn [length seq round_loop loop_keys].
  rewrite nth_error_app2, Nat.sub_diag by lia. cbn [nth_error].
  destruct (feistel_function R k); cbn [bind]; [|reflexivity].
  specialize (IH (pre ++ [k])). rewrite <- app_assoc, length_app in IH.
  simpl in IH. rewrite Nat.add_1_r in IH. apply IH.
Qed.

Lemma loop_keys_app (ks1 ks2 : list bits) (L R : bits) :
  loop_keys (ks1 ++ ks2) L R =
  LR <- loop_keys ks1 L R;; loop_keys ks2 (fst LR) (snd LR).
Proof.
  revert L R. induction ks1 as [|k ks1 IH]; intros L R; [reflexivity|].
  cbn [app loop_keys]. destruct (feistel_function R k); cbn [bind]; auto.
Qed.

Lemma loop_keys_length (ks : list bits) (L R L' R' : bits) :
  length L = 32%nat -> length R = 32%nat ->
  loop_keys ks L R = Ok (L', R') ->
  length L' = 32%nat /\ length R' = 32%nat.
Proof.
  revert L R. induction ks as [|k ks IH]; intros L R HL HR H; cbn [loop_keys] in H.
  - injection H as <- <-. auto.
  - destruct (feistel_function R k) as [f|] eqn:Ef; cbn [bind] in H; [|discriminate].
    apply (IH R (xor32 L f)); auto.
    apply xor32_length; auto. eapply feistel_length; eauto.
Qed.

(** The Feistel network is undone by running the reversed key list on the
    swapped output. *)
Lemma loop_keys_inverse (ks : list bits) (L R L' R' : bits) :
  length L = 32%nat -> length R = 32%nat ->
  loop_keys ks L R = Ok (L', R') ->
  loop_keys (rev ks) R' L' = Ok (R, L).
Proof.
  revert L R. induction ks as [|k ks IH]; intros L R HL HR H; cbn [loop_keys] in H.
  - injection H as <- <-. reflexivity.
  - destruct (feistel_function R k) as [f|] eqn:Ef; cbn [bind] in H; [|discriminate].
    pose proof (feistel_length _ _ _ Ef) as Hf.
    cbn [rev]. rewrite loop_keys_app.
    rewrite (IH R (xor32 L f)) by (auto; apply xor32_length; auto).
    cbn [bind fst snd loop_keys]. rewrite Ef. cbn [bind].
    rewrite xor32_cancel by auto. reflexivity.
Qed.

Lemma loop_keys_ok (ks : list bits) (L R : bits) :
  Forall (fun k => length k = 48%nat) ks ->
  length L = 32%nat -> length R = 32%nat ->
  exists L' R', loop_keys ks L R = Ok (L', R').
Proof.
  intros Hks. revert L R.
  induction Hks as [|k ks Hk Hks IH]; intros L R HL HR.
  - do 2 eexists. reflexivity.
  - cbn [loop_keys]. destruct (feistel_ok R k HR Hk) as (f & Ef & Hf).
    rewrite Ef. cbn [bind]. apply IH; auto. apply xor32_length; auto.
Qed.

Lemma process_block_loop (d : DES) (block : bytes) (dm : bool) :
  length (subkeys d) = Z.to_nat (rounds d) ->
  length block = 8%nat ->
  process_block d block dm =
  let block_str := bytes_to_bit_string block in
  LR <- loop_keys (if dm then rev (subkeys d) else subkeys d)
                  (firstn 32 block_str) (skipn 32 block_str);;
  Ok (bit_string_to_bytes (snd LR ++ fst LR)).
Proof.
  intros Hn Hb. unfold process_block. rewrite Hb. cbn [Nat.eqb negb].
  rewrite <- Hn.
  replace (length (subkeys d))
    with (length (if dm then rev (subkeys d) else subkeys d))
    by (destruct dm; [apply length_rev|reflexivity]).
  rewrite <- (round_loop_keys _ []). cbn [app length].
  destruct (round_loop _ _ _ _) as [[L R]|]; reflexivity.
Qed.

Lemma encrypt_block_ok (d : DES) (B : bytes) :
  length (subkeys d) = Z.to_nat (rounds d) ->
  Forall (fun k => length k = 48%nat) (subkeys d) ->
  length B = 8%nat -> Forall is_byte B ->
  exists C, encrypt_block d B = Ok C /\ length C = 8%nat /\ Forall is_byte C.
Proof.
  intros Hn Hks Hl Hb. unfold encrypt_block.
  rewrite process_block_loop by auto. cbn zeta.
  pose proof (bytes_to_bit_string_length B Hb) as Hs. rewrite Hl in Hs.
  set (s := bytes_to_bit_string B) in *.
  assert (HL : length (firstn 32 s) = 32%nat) by (rewrite length_firstn; lia).
  assert (HR : length (skipn 32 s) = 32%nat) by (rewrite length_skipn; lia).
  destruct (loop_keys_ok (subkeys d) (firstn 32 s) (skipn 32 s) Hks HL HR)
    as (L' & R' & E).
  rewrite E. cbn [bind fst snd].
  destruct (loop_keys_length _ _ _ _ _ HL HR E) as [HL' HR'].
  destruct (bytes_to_bit_string_roundtrip (R' ++ L') 8) as (_ & H1 & H2).
  { rewrite length_app. lia. }
  eexists. split; [reflexivity|]. auto.
Qed.

Lemma block_roundtrip (d : DES) (B C : bytes) :
  length (subkeys d) = Z.to_nat (rounds d) ->
  length B = 8%nat -> Forall is_byte B ->
  encrypt_block d B = Ok C -> decrypt_block d C = Ok B.
Proof.
  intros Hn Hl Hb H. unfold encrypt_block, decrypt_block in *.
  rewrite process_block_loop in H by auto. cbn zeta in H.
  pose proof (bytes_to_bit_string_length B Hb) as Hs. rewrite Hl in Hs.
  set (s := bytes_to_bit_string B) in *.
  destruct (loop_keys (subkeys d) (firstn 32 s) (skipn 32 s)) as [[L' R']|] eqn:E;
    cbn [bind fst snd] in H; [|discriminate].
  injection H as <-.
  assert (HL : length (firstn 32 s) = 32%nat) by (rewrite length_firstn; lia).
  assert (HR : length (skipn 32 s) = 32%nat) by (rewrite length_skipn; lia).
  destruct (loop_keys_length _ _ _ _ _ HL HR E) as [HL' HR'].
  destruct (bytes_to_bit_string_roundtrip (R' ++ L') 8) as (H1 & _ & H2).
  { rewrite length_app. lia. }
  rewrite process_block_loop by auto. cbn zeta.
  rewrite H1.
  destruct (firstn_skipn_block R' L' 32 HR') as [-> ->].
  rewrite (loop_keys_inverse _ _ _ _ _ HL HR E). cbn [bind fst snd].
  rewrite firstn_skipn. f_equal. apply bit_string_to_bytes_roundtrip. assumption.
Qed.

End Block.

(** ** Padding *)

Section Padding.

Lemma pad8 (D : bytes) :
  let n := 8 - Z.of_nat (length D) mod 8 in
  1 <= n <= 8 /\ pad D 8 = Ok (D ++ repeat n (Z.to_nat n)).
Proof.
  intros n. pose proof (Z.mod_pos_bound (Z.of_nat (length D)) 8 ltac:(lia)).
  split; [unfold n; lia|].
  unfold pad. cbn [Z.eqb]. fold n.
  replace (n =? 0) with false by (symmetry; apply Z.eqb_neq; unfold n; lia).
  replace ((n <? 0) || (256 <=? n)) with false
    by (symmetry; apply orb_false_iff; split; [apply Z.ltb_ge|apply Z.leb_gt];
        unfold n; lia).
  reflexivity.
Qed.

Lemma unpad_pad_bytes (D : bytes) (n : Z) :
  1 <= n <= 8 -> unpad (D ++ repeat n (Z.to_nat n)) 8 = D.
Proof.
  intros Hn. unfold unpad.
  destruct (Z.to_nat n) as [|m] eqn:Em; [lia|].
  assert (Hlast : last (D ++ repeat n (S m)) 0 = n).
  { cbn [repeat]. rewrite repeat_cons, app_assoc, last_last. reflexivity. }
  destruct (D ++ repeat n (S m)) as [|x l] eqn:E.
  { apply (f_equal (@length Z)) in E. rewrite length_app in E. simpl in E. lia. }
  rewrite Hlast, <- E, length_app, repeat_length.
  replace ((n <? 1) || (8 <? n) || (Z.of_nat (length D + S m) <? n)) with false
    by (symmetry; rewrite !orb_false_iff; repeat split;
        [apply Z.ltb_ge | apply Z.ltb_ge | apply Z.ltb_ge]; lia).
  replace (length D + S m - Z.to_nat n)%nat with (length D) by lia.
  rewrite firstn_app, Nat.sub_diag, firstn_all. simpl. apply app_nil_r.
Qed.

End Padding.

(** ** Claims about the engine *)

(** C2: every engine (any key, any round count) maps every 8-byte block [B]
    through [encrypt_block] to a block that [decrypt_block] maps back to [B];
    [decrypt_block] is [encrypt_block] of the same engine with its subkey list
    reversed, and the output of the rounds [(L, R)] is assembled as [R ++ L]. *)
Theorem block_involution (k : bytes) (bs R kl : Z) (v : option bytes) (B : bytes) :
  Forall is_byte k -> length B = 8%nat -> Forall is_byte B ->
  exists d, DES_init k bs R kl v = Ok d /\
    (forall X, decrypt_block d X =
       encrypt_block (mkDES (block_size d) (rounds d) (keylen d) (iv d) (key d)
                            (rev (subkeys d))) X) /\
    exists C L' R',
      round_loop (subkeys d) (seq 0 (Z.to_nat R))
        (firstn 32 (bytes_to_bit_string B)) (skipn 32 (bytes_to_bit_string B))
        = Ok (L', R') /\
      C = bit_string_to_bytes (R' ++ L') /\
      encrypt_block d B = Ok C /\
      decrypt_block d C = Ok B.
Proof.
  intros Hk Hl Hb.
  destruct (DES_init_spec k bs R kl v Hk) as (d & Ed & _ & Hr & _ & _ & _ & _ & Hks).
  destruct (key_schedule_spec_shape (key d) (Z.to_nat R)) as [Hn H48].
  rewrite <- Hks in Hn, H48. rewrite <- Hr in Hn.
  exists d. split; [assumption|]. split; [reflexivity|].
  destruct (encrypt_block_ok d B Hn H48 Hl Hb) as (C & EC & _).
  pose proof EC as EC'. unfold encrypt_block, process_block in EC'.
  rewrite Hl in EC'. cbn [Nat.eqb negb] in EC'. rewrite Hr in EC'.
  destruct (round_loop _ _ _ _) as [[L' R']|] eqn:Er; cbn [bind] in EC';
    [|discriminate].
  injection EC' as EC'.
  exists C, L', R'. repeat split; auto.
  apply (block_roundtrip d B C Hn Hl Hb EC).
Qed.

(** C4 (as amended): the engine performs no range check on the round count:
    construction succeeds for every key and every integer round count [R],
    keeps [R], and derives [max(R, 0)] subkeys. *)
Theorem DES_init_any_rounds (k : bytes) (bs R kl : Z) (v : option bytes) :
  Forall is_byte k ->
  exists d, DES_init k bs R kl v = Ok d /\ rounds d = R /\
            length (subkeys d) = Z.to_nat R.
Proof.
  intros Hk.
  destruct (DES_init_spec k bs R kl v Hk) as (d & Ed & _ & Hr & _ & _ & _ & _ & Hks).
  exists d. repeat split; auto.
  rewrite Hks. apply key_schedule_spec_shape.
Qed.

(** C4, counterexample: round counts 100 and 0, both outside [[8,32]], are
    accepted. *)
Lemma DES_init_out_of_range_accepted :
  match DES_init KEY0 64 100 64 None, DES_init KEY0 64 0 64 None with
  | Ok d1, Ok d2 =>
      rounds d1 = 100 /\ length (subkeys d1) = 100%nat /\
      rounds d2 = 0 /\ subkeys d2 = []
  | _, _ => False
  end.
Proof. vm_compute. repeat split. Qed.

(** C6: for an 8-byte key and a round count [R >= 0], construction derives
    exactly [R] subkeys of 48 bits each, never failing, and they are the
    subkeys of [key_schedule_spec]: [PC-1], then per round a cumulative
    rotation of both halves by [ROTATIONS[i mod 16]] and [PC-2]. *)
Theorem key_schedule_shape (k : bytes) (bs R kl : Z) (v : option bytes) :
  length k = 8%nat -> Forall is_byte k -> 0 <= R ->
  exists d, DES_init k bs R kl v = Ok d /\ key d = k /\
    generate_subkeys k R = Ok (subkeys d) /\
    Z.of_nat (length (subkeys d)) = R /\
    Forall (fun sk => length sk = 48%nat) (subkeys d) /\
    subkeys d = key_schedule_spec k (Z.to_nat R).
Proof.
  intros Hl Hb HR.
  assert (Eg : generate_subkeys k R = Ok (key_schedule_spec k (Z.to_nat R)))
    by (apply generate_subkeys_spec; auto).
  unfold DES_init. rewrite Hl. cbn [Nat.ltb Nat.leb]. rewrite Eg. cbn [bind].
  eexists. split; [reflexivity|]. cbn [key subkeys].
  destruct (key_schedule_spec_shape k (Z.to_nat R)) as [H1 H2].
  repeat split; auto. rewrite H1. lia.
Qed.

(** C7: [pad] appends [n = 8 - len(D) mod 8] bytes of value [n] (so [n] is 8
    on a multiple of 8 and the result is a strictly longer multiple of 8);
    [unpad] drops the last [p] bytes when the last byte [p] is in [[1,8]] and
    at most the length, and otherwise returns its input unchanged; and
    [unpad (pad D) = D]. *)
Theorem pad_unpad (D data : bytes) :
  let n := 8 - Z.of_nat (length D) mod 8 in
  (1 <= n <= 8 /\
   pad D 8 = Ok (D ++ repeat n (Z.to_nat n)) /\
   (length D < length (D ++ repeat n (Z.to_nat n)))%nat /\
   Nat.modulo (length (D ++ repeat n (Z.to_nat n))) 8 = 0%nat) /\
  unpad data 8 =
    (let p := last data 0 in
     if (1 <=? p) && (p <=? 8) && (p <=? Z.of_nat (length data))
     then firstn (length data - Z.to_nat p) data else data) /\
  (P <- pad D 8;; Ok (unpad P 8)) = Ok D.
Proof.
  intros n. destruct (pad8 D) as [Hn Hp]. fold n in Hn, Hp.
  split; [|split].
  - repeat split; try lia; auto.
    + rewrite length_app, repeat_length. lia.
    + rewrite length_app, repeat_length.
      apply Nat2Z.inj. rewrite Nat2Z.inj_mod, Nat2Z.inj_add, Z2Nat.id by lia.
      pose proof (Z.div_mod (Z.of_nat (length D)) 8 ltac:(lia)).
      replace (Z.of_nat (length D) + n) with ((Z.of_nat (length D) / 8 + 1) * 8)
        by (unfold n; lia).
      apply Z.mod_mul. lia.
  - unfold unpad. destruct data as [|x l]; [reflexivity|].
    cbv zeta. set (p := last (x :: l) 0). set (len := Z.of_nat (length (x :: l))).
    destruct ((p <? 1) || (8 <? p) || (len <? p)) eqn:Hc.
    + rewrite !orb_true_iff, !Z.ltb_lt in Hc.
      replace ((1 <=? p) && (p <=? 8) && (p <=? len)) with false; [reflexivity|].
      symmetry. rewrite !andb_false_iff, !Z.leb_gt. lia.
    + rewrite !orb_false_iff, !Z.ltb_ge in Hc.
      replace ((1 <=? p) && (p <=? 8) && (p <=? len)) with true; [reflexivity|].
      symmetry. rewrite !andb_true_iff, !Z.leb_le. lia.
  - rewrite Hp. cbn [bind]. f_equal. apply unpad_pad_bytes. assumption.
Qed.

(** ** Base64 *)

Section Base64.

Lemma forall_range (n : nat) (f : Z -> bool) :
  forallb (fun a => f (Z.of_nat a)) (seq 0 n) = true ->
  forall a, 0 <= a < Z.of_nat n -> f a = true.
Proof.
  intros H a Ha. rewrite forallb_forall in H.
  specialize (H (Z.to_nat a)). rewrite Z2Nat.id in H by lia.
  apply H, in_seq. lia.
Qed.

Lemma forall_bytes2 (f : Z -> Z -> bool) :
  forallb (fun a => forallb (fun b => f (Z.of_nat a) (Z.of_nat b)) (seq 0 256))
          (seq 0 256) = true ->
  forall a b, is_byte a -> is_byte b -> f a b = true.
Proof.
  intros H a b Ha Hb.
  apply (forall_range 256 (fun a => forallb (fun b => f a (Z.of_nat b)) (seq 0 256)))
    in Ha; [|exact H].
  apply (forall_range 256 (fun b => f a b)) in Hb; [exact Hb|exact Ha].
Qed.

Ltac reflect_checks H :=
  unfold b64_check1, b64_check_ab, b64_check_bc in H; cbv zeta in H;
  rewrite ?andb_true_iff, ?negb_true_iff, ?Z.eqb_eq, ?Z.leb_le, ?Z.ltb_lt in H.

Lemma b64_char_ok (v : Z) :
  0 <= v < 64 -> b64_value (b64_char v) = Ok v /\ (b64_char v =? PAD_CHAR) = false.
Proof.
  intros Hv.
  assert (H : b64_check_char v = true)
    by (apply (forall_range 64); [vm_compute; reflexivity | exact Hv]).
  unfold b64_check_char in H. destruct (b64_value (b64_char v)) as [w|]; [|discriminate].
  apply andb_true_iff in H as [H1 H2]. apply Z.eqb_eq in H1. subst w.
  apply negb_true_iff in H2. auto.
Qed.

Lemma b64_one (a : Z) : is_byte a -> b64_check1 a = true.
Proof.
  intros Ha. apply (forall_range 256); [vm_compute; reflexivity | exact Ha].
Qed.

Lemma b64_ab (a b : Z) : is_byte a -> is_byte b -> b64_check_ab a b = true.
Proof. apply forall_bytes2. vm_compute. reflexivity. Qed.

Lemma b64_bc (b c : Z) : is_byte b -> is_byte c -> b64_check_bc b c = true.
Proof. apply forall_bytes2. vm_compute. reflexivity. Qed.

Lemma b64_roundtrip_n (n : nat) (l : bytes) :
  (length l <= n)%nat -> Forall is_byte l -> b64decode (b64encode l) = Ok l.
Proof.
  revert l. induction n as [|n IH]; intros l Hn Hl.
  { destruct l; [reflexivity|simpl in Hn; lia]. }
  destruct l as [|a [|b [|c rest]]]; [reflexivity| | |].
  - inversion Hl as [|? ? Ha _]; subst.
    pose proof (b64_one a Ha) as H1. reflect_checks H1.
    cbn [b64encode b64decode app].
    destruct (b64_char_ok (Z.shiftr a 2)) as [-> _]; [lia|].
    destruct (b64_char_ok (Z.shiftl (Z.land a 3) 4)) as [-> _]; [lia|].
    cbn [bind]. rewrite Z.eqb_refl. cbn [andb]. f_equal. f_equal. lia.
  - inversion Hl as [|? ? Ha Hl']; inversion Hl' as [|? ? Hb _]; subst.
    pose proof (b64_ab a b Ha Hb) as H2. reflect_checks H2.
    cbn [b64encode b64decode app].
    destruct (b64_char_ok (Z.shiftr a 2)) as [-> _];
      [pose proof (b64_one a Ha) as H1; reflect_checks H1; lia|].
    destruct (b64_char_ok (Z.lor (Z.shiftl (Z.land a 3) 4) (Z.shiftr b 4)))
      as [-> _]; [lia|].
    destruct (b64_char_ok (Z.shiftl (Z.land b 15) 2)) as [-> ->]; [lia|].
    cbn [bind andb]. rewrite Z.eqb_refl. do 3 f_equal; lia.
  - inversion Hl as [|? ? Ha Hl']; inversion Hl' as [|? ? Hb Hl''];
      inversion Hl'' as [|? ? Hc Hrest]; subst.
    pose proof (b64_ab a b Ha Hb) as H2. reflect_checks H2.
    pose proof (b64_bc b c Hb Hc) as H3. reflect_checks H3.
    pose proof (b64_one a Ha) as H1a. reflect_checks H1a.
    pose proof (b64_one b Hb) as H1b. reflect_checks H1b.
    pose proof (b64_one c Hc) as H1c. reflect_checks H1c.
    cbn [b64encode b64decode app].
    destruct (b64_char_ok (Z.shiftr a 2)) as [-> _]; [lia|].
    destruct (b64_char_ok (Z.lor (Z.shiftl (Z.land a 3) 4) (Z.shiftr b 4)))
      as [-> _]; [lia|].
    destruct (b64_char_ok (Z.lor (Z.shiftl (Z.land b 15) 2) (Z.shiftr c 6)))
      as [-> ->]; [lia|].
    destruct (b64_char_ok (Z.land c 63)) as [-> ->]; [lia|].
    cbn [bind andb].
    rewrite IH by (simpl in Hn; lia || assumption). cbn [bind].
    destruct H2 as [[[[[[_ _] _] _] Ea] Es1] _].
    destruct H3 as [[[_ _] Es2] Es2'].
    rewrite Es1, Es2, Es2', Ea.
    destruct H1b as [[[[[[[[_ _] _] _] _] Eb] _] _] _].
    destruct H1c as [[[[[[[[_ _] _] _] _] _] Ec] _] _].
    rewrite Eb, Ec. reflexivity.
Qed.

Lemma b64_roundtrip (l : bytes) :
  Forall is_byte l -> b64decode (b64encode l) = Ok l.
Proof. apply (b64_roundtrip_n (length l)). lia. Qed.

End Base64.

(** C9: [DES.encrypt] is base64 of the reversed input, [DES.decrypt] undoes
    it, and neither depends on the engine (key, round count, subkeys). *)
Theorem DES_encrypt_keyless (d1 d2 : DES) (P c : bytes) :
  Forall is_byte P ->
  DES_encrypt d1 P = b64encode (rev P) /\
  DES_decrypt d1 (DES_encrypt d1 P) = Ok P /\
  DES_encrypt d1 P = DES_encrypt d2 P /\
  DES_decrypt d1 c = DES_decrypt d2 c.
Proof.
  intros HP. repeat split.
  unfold DES_decrypt, DES_encrypt.
  rewrite b64_roundtrip by (apply Forall_rev; assumption).
  cbn [bind]. now rewrite rev_involutive.
Qed.

(** ** Claims about the modes *)

(** C5 (as amended): building a mode never fails: [_BaseMode.__init__] only
    copies the engine's IV.  For CBC, CFB, OFB and CTR an absent (or empty)
    IV makes [encrypt] and [decrypt] raise [ValueError] when they are
    called.  ECB ignores the IV: its [encrypt] and [decrypt] give the same
    result whatever IV [w] (absent, empty or any bytes) the engine holds. *)
Theorem mode_missing_iv (k : ModeKind) (d : DES) (P : bytes) (w : option bytes) :
  des (BaseMode_init k (Some d)) = Some d /\
  mode_iv (BaseMode_init k (Some d)) = iv d /\
  (k <> ECB -> iv_truthy (iv d) = None ->
   mode_encrypt (BaseMode_init k (Some d)) P = Err ValueError /\
   mode_decrypt (BaseMode_init k (Some d)) P = Err ValueError) /\
  (k = ECB ->
   let dw := mkDES (block_size d) (rounds d) (keylen d) w (key d) (subkeys d) in
   mode_encrypt (BaseMode_init k (Some dw)) P =
     mode_encrypt (BaseMode_init k (Some d)) P /\
   mode_decrypt (BaseMode_init k (Some dw)) P =
     mode_decrypt (BaseMode_init k (Some d)) P).
Proof.
  split; [destruct k; reflexivity|].
  split; [destruct k; reflexivity|].
  split.
  - intros Hk Hiv.
    destruct k; [congruence| | | |];
      unfold mode_decrypt; cbn [BaseMode_init des kind mode_iv];
      unfold mode_encrypt; cbn [BaseMode_init des kind mode_iv];
      rewrite Hiv; split; reflexivity.
  - intros -> dw. split; reflexivity.
Qed.

(** C5, counterexample: a CBC mode over an engine built without an IV is
    constructed (no error), and the failure only appears at [encrypt]. *)
Lemma mode_without_iv_constructed :
  match DES_init KEY0 64 16 64 None with
  | Ok d =>
      let m := BaseMode_init CBC (Some d) in
      des m = Some d /\ mode_iv m = None /\
      mode_encrypt m HELLOALI = Err ValueError
  | Err _ => False
  end.
Proof. vm_compute. repeat split. Qed.

Section Counter.

Lemma bind_assoc {A B C : Type} (m : Result A) (f : A -> Result B)
  (g : B -> Result C) :
  bind (bind m f) g = bind m (fun a => bind (f a) g).
Proof. destruct m; reflexivity. Qed.

Lemma ctr_loop_direct_from (d : DES) (seed : Z) (blocks : list bytes) (s : nat) :
  ctr_loop d 8 (seed + Z.of_nat s) blocks =
  mapM (fun ib => ks <- ctr_keystream_block d seed (fst ib);; Ok (bxor (snd ib) ks))
       (combine (seq s (length blocks)) blocks).
Proof.
  revert s. induction blocks as [|b blocks IH]; intros s; [reflexivity|].
  cbn [ctr_loop length seq combine mapM fst snd].
  unfold ctr_keystream_block. rewrite !bind_assoc.
  destruct (int_to_bytes (seed + Z.of_nat s) 8) as [cb|]; cbn [bind]; [|reflexivity].
  destruct (encrypt_block d cb) as [out|]; cbn [bind]; [|reflexivity].
  replace (seed + Z.of_nat s + 1) with (seed + Z.of_nat (S s)) by lia.
  rewrite IH. reflexivity.
Qed.

Lemma ctr_loop_direct (d : DES) (seed : Z) (blocks : list bytes) :
  ctr_loop d 8 seed blocks = ctr_encrypt_direct d seed blocks.
Proof.
  unfold ctr_encrypt_direct. rewrite <- ctr_loop_direct_from.
  now rewrite Z.add_0_r.
Qed.

Lemma to_bytes_be_shape (n : nat) (v : Z) :
  length (to_bytes_be n v) = n /\ Forall is_byte (to_bytes_be n v).
Proof.
  revert v. induction n as [|n IH]; intros v; [split; auto|].
  cbn [to_bytes_be]. destruct (IH (Z.shiftr v 8)) as [H1 H2]. split.
  - rewrite length_app, H1. simpl. lia.
  - apply Forall_app. split; [assumption|]. constructor; [|constructor].
    change 255 with (Z.ones 8). rewrite Z.land_ones by lia.
    unfold is_byte. pose proof (Z.mod_pos_bound v (2 ^ 8) ltac:(lia)). simpl in *. lia.
Qed.

Lemma int_from_bytes_bound (b : bytes) :
  Forall is_byte b -> 0 <= int_from_bytes b < 256 ^ Z.of_nat (length b).
Proof.
  induction b as [|x b IH] using rev_ind; intros Hb; [unfold int_from_bytes; simpl; lia|].
  apply Forall_app in Hb as [Hb Hx]. inversion Hx as [|? ? Hx' _]; subst.
  unfold int_from_bytes in *. rewrite fold_left_app. cbn [fold_left].
  specialize (IH Hb). unfold is_byte in Hx'.
  rewrite length_app, Nat2Z.inj_add, Z.pow_add_r by lia. simpl (Z.of_nat (length [x])).
  rewrite Z.pow_1_r. nia.
Qed.

(** The counter reaches [2^64] at block [m]: the loop stops with
    [OverflowError], every earlier block being encrypted. *)
Lemma ctr_loop_overflow (d : DES) (m : nat) (blocks : list bytes) (c : Z) :
  length (subkeys d) = Z.to_nat (rounds d) ->
  Forall (fun k => length k = 48%nat) (subkeys d) ->
  (m < length blocks)%nat -> 0 <= c -> c + Z.of_nat m = 2 ^ 64 ->
  ctr_loop d 8 c blocks = Err OverflowError.
Proof.
  intros Hn Hks. revert blocks c.
  induction m as [|m IH]; intros blocks c Hm Hc Hcm;
    (destruct blocks as [|b blocks]; [simpl in Hm; lia|]); cbn [ctr_loop].
  - unfold int_to_bytes. cbn [Z.ltb Z.compare].
    replace ((c <? 0) || (256 ^ 8 <=? c)) with true
      by (symmetry; apply orb_true_iff; right; apply Z.leb_le; simpl in *; lia).
    reflexivity.
  - unfold int_to_bytes at 1.
    replace (8 <? 0) with false by reflexivity.
    replace ((c <? 0) || (256 ^ 8 <=? c)) with false
      by (symmetry; apply orb_false_iff; split; [apply Z.ltb_ge|apply Z.leb_gt];
          simpl in *; lia).
    cbn [bind Z.to_nat Pos.to_nat].
    destruct (to_bytes_be_shape 8 c) as [Hl Hb].
    destruct (encrypt_block_ok d (to_bytes_be 8 c) Hn Hks Hl Hb) as (C & EC & _).
    change (Pos.to_nat 8) with 8%nat. rewrite EC. cbn [bind].
    rewrite (IH blocks (c + 1)) by (simpl in Hm; lia). reflexivity.
Qed.

End Counter.

(** C8: in CTR mode (8-byte blocks, non-empty IV [v]), [encrypt] computes
    block [i]'s keystream as [encrypt_block] of the 8-byte big-endian
    encoding of [int(v) + i], each block independently of the others
    ([ctr_encrypt_direct]); the sequential counter loop of the source gives
    the same result, failures included.  [decrypt] is the same operation. *)
Theorem ctr_parallel_equivalence (d : DES) (v P : bytes) :
  block_size d = 64 -> iv d = Some v -> v <> [] ->
  let m := BaseMode_init CTR (Some d) in
  mode_encrypt m P =
    (padded <- pad P 8;;
     out <- ctr_encrypt_direct d (int_from_bytes v) (slices 8 padded);;
     Ok (concat out)) /\
  mode_decrypt m P = mode_encrypt m P.
Proof.
  intros Hbs Hiv Hv m. split; [|reflexivity].
  assert (Ht : iv_truthy (Some v) = Some v) by (destruct v; [congruence|reflexivity]).
  unfold m, mode_encrypt. cbn [BaseMode_init des kind mode_iv block_size_bytes].
  rewrite Hbs, Hiv, Ht. change (64 / 8) with 8.
  destruct (pad P 8) as [padded|]; cbn [bind]; [|reflexivity].
  unfold get_blocks. cbn [block_size_bytes Z.eqb Z.ltb Z.compare]. cbn [bind].
  rewrite ctr_loop_direct. reflexivity.
Qed.

(** C10: for an engine with the default 64-bit block size and an 8-byte IV
    whose value [v] satisfies [v + j >= 2^64] for a block index [j] of the
    padded input ([len(P) / 8 + 1] blocks), CTR [encrypt] and [decrypt] raise
    [OverflowError]: the counter is not reduced modulo [2^64]. *)
Theorem ctr_counter_overflow (k : bytes) (R : Z) (v P : bytes) (j : nat) :
  Forall is_byte k -> length v = 8%nat -> Forall is_byte v ->
  (j < length P / 8 + 1)%nat -> 2 ^ 64 <= int_from_bytes v + Z.of_nat j ->
  exists d, DES_init k 64 R 64 (Some v) = Ok d /\
    mode_encrypt (BaseMode_init CTR (Some d)) P = Err OverflowError /\
    mode_decrypt (BaseMode_init CTR (Some d)) P = Err OverflowError.
Proof.
  intros Hk Hlv Hbv Hj Hov.
  destruct (DES_init_spec k 64 R 64 (Some v) Hk)
    as (d & Ed & Hbs & Hr & _ & Hiv & _ & _ & Hks).
  destruct (key_schedule_spec_shape (key d) (Z.to_nat R)) as [Hn H48].
  rewrite <- Hks in Hn, H48. rewrite <- Hr in Hn.
  pose proof (int_from_bytes_bound v Hbv) as Hvb. rewrite Hlv in Hvb.
  change (256 ^ Z.of_nat 8) with (2 ^ 64) in Hvb.
  assert (Henc : mode_encrypt (BaseMode_init CTR (Some d)) P = Err OverflowError).
  { assert (Ht : iv_truthy (Some v) = Some v)
      by (destruct v; [simpl in Hlv; lia|reflexivity]).
    unfold mode_encrypt. cbn [BaseMode_init des kind mode_iv block_size_bytes].
    rewrite Hbs, Hiv, Ht. change (64 / 8) with 8.
    destruct (pad8 P) as [Hn8 Hp]. rewrite Hp. cbn [bind].
    set (n := 8 - Z.of_nat (length P) mod 8) in *.
    unfold get_blocks. cbn [block_size_bytes Z.eqb Z.ltb Z.compare]. cbn [bind].
    destruct (split_uniform 8 (length P / 8 + 1) (P ++ repeat n (Z.to_nat n)))
      as (L & HL & HLu & HLl).
    { rewrite length_app, repeat_length.
      pose proof (Nat.div_mod (length P) 8 ltac:(lia)).
      assert (Z.to_nat n = 8 - length P mod 8)%nat.
      { unfold n. pose proof (Nat.mod_upper_bound (length P) 8 ltac:(lia)).
        rewrite <- (Nat2Z.id (8 - length P mod 8)). f_equal.
        rewrite Nat2Z.inj_sub by lia. rewrite Nat2Z.inj_mod. reflexivity. }
      pose proof (Nat.mod_upper_bound (length P) 8 ltac:(lia)). lia. }
    rewrite HL, slices_concat by (auto; lia).
    rewrite (ctr_loop_overflow d (Z.to_nat (2 ^ 64 - int_from_bytes v)) L
               (int_from_bytes v) Hn H48); [reflexivity| |lia|].
    + unfold bytes in *. rewrite HLl. apply Nat2Z.inj_lt. rewrite Z2Nat.id by lia.
      apply Nat2Z.inj_lt in Hj. lia.
    + rewrite Z2Nat.id by lia. lia. }
  exists d. repeat split; auto.
Qed.

(** C1, failing input: key [b"MYSECRET"], IV [b"12345678"], 16 rounds,
    plaintext [b"HELLOALI"].  In OFB and in CTR mode, [decrypt] of the
    ciphertext returns 24 bytes: the plaintext, a full padding block and a
    third block, instead of the 8-byte plaintext. *)
Lemma ofb_ctr_roundtrip_fails :
  match DES_init KEY0 64 16 64 (Some IV0) with
  | Ok d =>
      (exists Q, (C <- mode_encrypt (BaseMode_init OFB (Some d)) HELLOALI;;
                  mode_decrypt (BaseMode_init OFB (Some d)) C) = Ok Q /\
                 length Q = 24%nat /\ firstn 8 Q = HELLOALI /\ Q <> HELLOALI) /\
      (exists Q, (C <- mode_encrypt (BaseMode_init CTR (Some d)) HELLOALI;;
                  mode_decrypt (BaseMode_init CTR (Some d)) C) = Ok Q /\
                 length Q = 24%nat /\ firstn 8 Q = HELLOALI /\ Q <> HELLOALI)
  | Err _ => False
  end.
Proof.
  vm_compute.
  split; (eexists; split; [reflexivity|]; split; [reflexivity|];
          split; [reflexivity|discriminate]).
Qed.

(** C3, failing input: same engine and IV; the CTR ciphertext [C] of
    [b"HELLOALI"] is 16 bytes, and CTR [decrypt] pads it to 24 bytes before
    the keystream XOR and strips nothing afterwards, returning 24 bytes. *)
Lemma ctr_decrypt_pads_input :
  match DES_init KEY0 64 16 64 (Some IV0) with
  | Ok d =>
      exists C Q, mode_encrypt (BaseMode_init CTR (Some d)) HELLOALI = Ok C /\
        length C = 16%nat /\
        mode_decrypt (BaseMode_init CTR (Some d)) C = Ok Q /\
        pad C 8 = Ok (C ++ repeat 8 8) /\
        length Q = 24%nat /\ firstn 16 Q = HELLOALI ++ repeat 8 8
  | Err _ => False
  end.
Proof.
  vm_compute. do 2 eexists.
  split; [reflexivity|]. split; [reflexivity|]. split; [reflexivity|].
  split; [reflexivity|]. split; reflexivity.
Qed.

(** * Instances of the theorems at the running example *)


Ltac bytes_ok := repeat constructor; unfold is_byte; lia.

Lemma block_involution_witness :
  Forall is_byte KEY0 /\ length HELLOALI = 8%nat /\ Forall is_byte HELLOALI /\
  exists d, DES_init KEY0 64 16 64 (Some IV0) = Ok d /\
    (forall X, decrypt_block d X =
       encrypt_block (mkDES (block_size d) (rounds d) (keylen d) (iv d) (key d)
                            (rev (subkeys d))) X) /\
    exists C L' R',
      round_loop (subkeys d) (seq 0 (Z.to_nat 16))
        (firstn 32 (bytes_to_bit_string HELLOALI))
        (skipn 32 (bytes_to_bit_string HELLOALI)) = Ok (L', R') /\
      C = bit_string_to_bytes (R' ++ L') /\
      encrypt_block d HELLOALI = Ok C /\ decrypt_block d C = Ok HELLOALI.
Proof.
  assert (H1 : Forall is_byte KEY0) by (unfold KEY0; bytes_ok).
  assert (H2 : length HELLOALI = 8%nat) by reflexivity.
  assert (H3 : Forall is_byte HELLOALI) by (unfold HELLOALI; bytes_ok).
  split; [exact H1|]. split; [exact H2|]. split; [exact H3|].
  exact (block_involution KEY0 64 16 64 (Some IV0) HELLOALI H1 H2 H3).
Defined.

Lemma DES_init_any_rounds_witness :
  Forall is_byte KEY0 /\
  exists d, DES_init KEY0 64 100 64 None = Ok d /\ rounds d = 100 /\
            length (subkeys d) = Z.to_nat 100.
Proof.
  assert (H1 : Forall is_byte KEY0) by (unfold KEY0; bytes_ok).
  split; [exact H1|].
  exact (DES_init_any_rounds KEY0 64 100 64 None H1).
Defined.

Lemma key_schedule_shape_witness :
  length KEY0 = 8%nat /\ Forall is_byte KEY0 /\ 0 <= 16 /\
  exists d, DES_init KEY0 64 16 64 (Some IV0) = Ok d /\ key d = KEY0 /\
    generate_subkeys KEY0 16 = Ok (subkeys d) /\
    Z.of_nat (length (subkeys d)) = 16 /\
    Forall (fun sk => length sk = 48%nat) (subkeys d) /\
    subkeys d = key_schedule_spec KEY0 (Z.to_nat 16).
Proof.
  assert (H1 : length KEY0 = 8%nat) by reflexivity.
  assert (H2 : Forall is_byte KEY0) by (unfold KEY0; bytes_ok).
  assert (H3 : 0 <= 16) by lia.
  split; [exact H1|]. split; [exact H2|]. split; [exact H3|].
  exact (key_schedule_shape KEY0 64 16 64 (Some IV0) H1 H2 H3).
Defined.


Lemma DES_encrypt_keyless_witness :
  Forall is_byte HELLOALI /\
  DES_encrypt ENGINE0 HELLOALI = b64encode (rev HELLOALI) /\
  DES_decrypt ENGINE0 (DES_encrypt ENGINE0 HELLOALI) = Ok HELLOALI /\
  DES_encrypt ENGINE0 HELLOALI = DES_encrypt ENGINE1 HELLOALI /\
  DES_decrypt ENGINE0 IV0 = DES_decrypt ENGINE1 IV0.
Proof.
  assert (H1 : Forall is_byte HELLOALI) by (unfold HELLOALI; bytes_ok).
  split; [exact H1|].
  exact (DES_encrypt_keyless ENGINE0 ENGINE1 HELLOALI IV0 H1).
Defined.


Lemma mode_missing_iv_witness :
  CBC <> ECB /\ iv_truthy (iv ENGINE_NOIV) = None /\
  des (BaseMode_init CBC (Some ENGINE_NOIV)) = Some ENGINE_NOIV /\
  mode_iv (BaseMode_init CBC (Some ENGINE_NOIV)) = iv ENGINE_NOIV /\
  mode_encrypt (BaseMode_init CBC (Some ENGINE_NOIV)) HELLOALI = Err ValueError /\
  mode_decrypt (BaseMode_init CBC (Some ENGINE_NOIV)) HELLOALI = Err ValueError /\
  (let dw := mkDES (block_size ENGINE_NOIV) (rounds ENGINE_NOIV) (keylen ENGINE_NOIV)
               (Some IV0) (key ENGINE_NOIV) (subkeys ENGINE_NOIV) in
   mode_encrypt (BaseMode_init ECB (Some dw)) HELLOALI =
     mode_encrypt (BaseMode_init ECB (Some ENGINE_NOIV)) HELLOALI /\
   mode_decrypt (BaseMode_init ECB (Some dw)) HELLOALI =
     mode_decrypt (BaseMode_init ECB (Some ENGINE_NOIV)) HELLOALI).
Proof.
  assert (H1 : CBC <> ECB) by discriminate.
  assert (H2 : iv_truthy (iv ENGINE_NOIV) = None) by reflexivity.
  split; [exact H1|]. split; [exact H2|].
  destruct (mode_missing_iv CBC ENGINE_NOIV HELLOALI None) as (E1 & E2 & E3 & _).
  split; [exact E1|]. split; [exact E2|]. split; [exact (proj1 (E3 H1 H2))|].
  split; [exact (proj2 (E3 H1 H2))|].
  destruct (mode_missing_iv ECB ENGINE_NOIV HELLOALI (Some IV0)) as (_ & _ & _ & E4).
  exact (E4 eq_refl).
Defined.

Lemma ctr_parallel_equivalence_witness :
  block_size ENGINE0 = 64 /\ iv ENGINE0 = Some IV0 /\ IV0 <> [] /\
  let m := BaseMode_init CTR (Some ENGINE0) in
  mode_encrypt m HELLOALI =
    (padded <- pad HELLOALI 8;;
     out <- ctr_encrypt_direct ENGINE0 (int_from_bytes IV0) (slices 8 padded);;
     Ok (concat out)) /\
  mode_decrypt m HELLOALI = mode_encrypt m HELLOALI.
Proof.
  assert (H1 : block_size ENGINE0 = 64) by reflexivity.
  assert (H2 : iv ENGINE0 = Some IV0) by reflexivity.
  assert (H3 : IV0 <> []) by discriminate.
  split; [exact H1|]. split; [exact H2|]. split; [exact H3|].
  exact (ctr_parallel_equivalence ENGINE0 IV0 HELLOALI H1 H2 H3).
Defined.

Lemma ctr_counter_overflow_witness :
  Forall is_byte KEY0 /\ length FF8 = 8%nat /\ Forall is_byte FF8 /\
  (1 < length HELLOALI / 8 + 1)%nat /\
  2 ^ 64 <= int_from_bytes FF8 + Z.of_nat 1 /\
  exists d, DES_init KEY0 64 16 64 (Some FF8) = Ok d /\
    mode_encrypt (BaseMode_init CTR (Some d)) HELLOALI = Err OverflowError /\
    mode_decrypt (BaseMode_init CTR (Some d)) HELLOALI = Err OverflowError.
Proof.
  assert (H1 : Forall is_byte KEY0) by (unfold KEY0; bytes_ok).
  assert (H2 : length FF8 = 8%nat) by reflexivity.
  assert (H3 : Forall is_byte FF8) by (unfold FF8; bytes_ok).
  assert (H4 : (1 < length HELLOALI / 8 + 1)%nat) by (vm_compute; lia).
  assert (H5 : 2 ^ 64 <= int_from_bytes FF8 + Z.of_nat 1)
    by (vm_compute; discriminate).
  split; [exact H1|]. split; [exact H2|]. split; [exact H3|].
  split; [exact H4|]. split; [exact H5|].
  exact (ctr_counter_overflow KEY0 16 FF8 HELLOALI 1%nat H1 H2 H3 H4 H5).
Defined.

(** * Further properties of the engine and the modes *)
Section Xor.

Lemma bxor_bytes (a b : bytes) :
  Forall is_byte a -> Forall is_byte b -> Forall is_byte (bxor a b).
Proof.
  intros Ha. revert b. induction Ha as [|x a Hx Ha IH]; intros b Hb; [constructor|].
  destruct b as [|y b]; [constructor|]. inversion Hb; subst.
  cbn. constructor; auto. unfold is_byte in *.
  pose proof (lxor_bound 8 x y ltac:(lia)). simpl in *. lia.
Qed.

Lemma bxor_length (a b : bytes) : length (bxor a b) = Nat.min (length a) (length b).
Proof. apply zipWith_length. Qed.

Lemma bxor_blk8 (a b : bytes) : blk8 a -> blk8 b -> blk8 (bxor a b).
Proof.
  intros [Ha Hba] [Hb Hbb]. split.
  - rewrite bxor_length, Ha, Hb. reflexivity.
  - auto using bxor_bytes.
Qed.

Lemma bxor_cancel (a k : bytes) :
  (length a <= length k)%nat -> bxor (bxor a k) k = a.
Proof.
  revert k; induction a as [|x a IH]; intros k Hk; [reflexivity|].
  destruct k as [|y k]; simpl in Hk; [lia|]. cbn.
  rewrite Z.lxor_assoc, Z.lxor_nilpotent, Z.lxor_0_r.
  f_equal. apply IH. lia.
Qed.

End Xor.

Section Engine.

Variable d : DES.
Hypothesis Hn : length (subkeys d) = Z.to_nat (rounds d).
Hypothesis H48 : Forall (fun k => length k = 48%nat) (subkeys d).

Lemma process_block_ok (dm : bool) (B : bytes) :
  blk8 B -> exists C, process_block d B dm = Ok C /\ blk8 C.
Proof.
  intros [Hl Hb].
  rewrite process_block_loop by auto. cbn zeta.
  set (ks := if dm then rev (subkeys d) else subkeys d).
  pose proof (bytes_to_bit_string_length B Hb) as Hs. rewrite Hl in Hs.
  set (s := bytes_to_bit_string B) in *.
  assert (HL : length (firstn 32 s) = 32%nat) by (rewrite length_firstn; lia).
  assert (HR : length (skipn 32 s) = 32%nat) by (rewrite length_skipn; lia).
  assert (Hks : Forall (fun k => length k = 48%nat) ks)
    by (unfold ks; destruct dm; [apply Forall_rev|]; assumption).
  destruct (loop_keys_ok _ (firstn 32 s) (skipn 32 s) Hks HL HR)
    as (L' & R' & E).
  rewrite E. cbn [bind fst snd].
  destruct (loop_keys_length _ _ _ _ _ HL HR E) as [HL' HR'].
  destruct (bytes_to_bit_string_roundtrip (R' ++ L') 8) as (_ & H1 & H2).
  { rewrite length_app. lia. }
  eexists. split; [reflexivity|]. split; auto.
Qed.

Lemma enc_ok (B : bytes) :
  blk8 B -> exists C, encrypt_block d B = Ok C /\ blk8 C /\ decrypt_block d C = Ok B.
Proof.
  intros HB. destruct (process_block_ok false B HB) as (C & E & HC).
  exists C. split; [exact E|]. split; [exact HC|].
  destruct HB. apply (block_roundtrip d B C); auto.
Qed.

Lemma dec_ok (B : bytes) :
  blk8 B -> exists C, decrypt_block d B = Ok C /\ blk8 C.
Proof. apply process_block_ok. Qed.

Lemma ecb_loop_rt (L : list bytes) :
  Forall blk8 L ->
  exists Cs, mapM (encrypt_block d) L = Ok Cs /\ Forall blk8 Cs /\
             length Cs = length L /\ mapM (decrypt_block d) Cs = Ok L.
Proof.
  induction 1 as [|B L HB HL IH].
  - exists []. repeat split; auto.
  - destruct (enc_ok B HB) as (C & EC & HC & DC).
    destruct IH as (Cs & E & HCs & Hlen & D).
    exists (C :: Cs). cbn [mapM]. rewrite EC, E, DC, D. cbn [bind].
    repeat split; auto. simpl. lia.
Qed.

Lemma cbc_loop_rt (prev : bytes) (L : list bytes) :
  blk8 prev -> Forall blk8 L ->
  exists Cs, cbc_encrypt_loop d prev L = Ok Cs /\ Forall blk8 Cs /\
             length Cs = length L /\ cbc_decrypt_loop d prev Cs = Ok L.
Proof.
  intros Hp HL. revert prev Hp.
  induction HL as [|B L HB HL IH]; intros prev Hp.
  - exists []. repeat split; auto.
  - pose proof (bxor_blk8 B prev HB Hp) as Hx.
    destruct (enc_ok _ Hx) as (C & EC & HC & DC).
    destruct (IH C HC) as (Cs & E & HCs & Hlen & D).
    exists (C :: Cs). cbn [cbc_encrypt_loop cbc_decrypt_loop].
    rewrite EC. cbn [bind]. rewrite E. cbn [bind]. rewrite DC. cbn [bind].
    rewrite D. cbn [bind].
    rewrite bxor_cancel by (destruct HB, Hp; lia).
    repeat split; auto. simpl. lia.
Qed.

Lemma cfb_loop_rt (prev : bytes) (L : list bytes) :
  blk8 prev -> Forall blk8 L ->
  exists Cs, cfb_encrypt_loop d prev L = Ok Cs /\ Forall blk8 Cs /\
             length Cs = length L /\ cfb_decrypt_loop d prev Cs = Ok L.
Proof.
  intros Hp HL. revert prev Hp.
  induction HL as [|B L HB HL IH]; intros prev Hp.
  - exists []. repeat split; auto.
  - destruct (enc_ok prev Hp) as (E & EE & HE & _).
    pose proof (bxor_blk8 B E HB HE) as HC.
    destruct (IH _ HC) as (Cs & Ecs & HCs & Hlen & D).
    exists (bxor B E :: Cs). cbn [cfb_encrypt_loop cfb_decrypt_loop].
    rewrite EE. cbn [bind]. rewrite Ecs. cbn [bind]. rewrite D. cbn [bind].
    rewrite bxor_cancel by (destruct HB, HE; lia).
    repeat split; auto. simpl. lia.
Qed.

Lemma ofb_stream (fb : bytes) (n : nat) :
  blk8 fb ->
  exists ks, length ks = n /\ Forall blk8 ks /\
    forall L, (length L <= n)%nat -> ofb_loop d fb L = Ok (zipWith bxor L ks).
Proof.
  revert fb. induction n as [|n IH]; intros fb Hfb.
  - exists []. repeat split; auto. intros L HL.
    destruct L; [reflexivity|simpl in HL; lia].
  - destruct (enc_ok fb Hfb) as (o & Eo & Ho & _).
    destruct (IH o Ho) as (ks & Hl & Hks & Hloop).
    exists (o :: ks). repeat split; [simpl; lia|constructor; auto|].
    intros [|B L] HL; [reflexivity|].
    cbn [ofb_loop]. rewrite Eo. cbn [bind]. rewrite Hloop by (simpl in HL; lia).
    reflexivity.
Qed.

Lemma ctr_stream (c : Z) (n : nat) :
  0 <= c -> c + Z.of_nat n <= 2 ^ 64 ->
  exists ks, length ks = n /\ Forall blk8 ks /\
    forall L, (length L <= n)%nat -> ctr_loop d 8 c L = Ok (zipWith bxor L ks).
Proof.
  revert c. induction n as [|n IH]; intros c Hc Hcn.
  - exists []. repeat split; auto. intros L HL.
    destruct L; [reflexivity|simpl in HL; lia].
  - assert (Hi : int_to_bytes c 8 = Ok (to_bytes_be 8 c)).
    { unfold int_to_bytes.
      replace ((c <? 0) || (256 ^ 8 <=? c)) with false
        by (symmetry; apply orb_false_iff; split; [apply Z.ltb_ge|apply Z.leb_gt];
            simpl in *; lia).
      reflexivity. }
    destruct (to_bytes_be_shape 8 c) as [Hl8 Hb8].
    destruct (enc_ok (to_bytes_be 8 c) (conj Hl8 Hb8)) as (o & Eo & Ho & _).
    destruct (IH (c + 1)) as (ks & Hl & Hks & Hloop); [lia|lia|].
    exists (o :: ks). repeat split; [simpl; lia|constructor; auto|].
    intros [|B L] HL; [reflexivity|].
    cbn [ctr_loop]. rewrite Hi. cbn [bind]. rewrite Eo. cbn [bind].
    rewrite Hloop by (simpl in HL; lia). reflexivity.
Qed.

End Engine.

Section Blocks.

Lemma Forall_concat_inv {A : Type} (P : A -> Prop) (L : list (list A)) :
  Forall P (concat L) -> Forall (Forall P) L.
Proof.
  induction L as [|c L IH]; simpl; intros H; constructor;
    apply Forall_app in H; tauto.
Qed.

Lemma padding_bytes (n : Z) : 1 <= n <= 8 -> Forall is_byte (repeat n (Z.to_nat n)).
Proof.
  intros Hn. apply Forall_forall. intros x Hx. apply repeat_spec in Hx.
  subst. unfold is_byte. lia.
Qed.

Lemma padded_length (P : bytes) (n : Z) :
  n = 8 - Z.of_nat (length P) mod 8 ->
  length (P ++ repeat n (Z.to_nat n)) = (8 * (length P / 8 + 1))%nat.
Proof.
  intros ->. rewrite length_app, repeat_length.
  pose proof (Nat.div_mod (length P) 8 ltac:(lia)).
  pose proof (Nat.mod_upper_bound (length P) 8 ltac:(lia)).
  assert (Z.to_nat (8 - Z.of_nat (length P) mod 8) = 8 - length P mod 8)%nat.
  { rewrite <- (Nat2Z.id (8 - length P mod 8)). f_equal.
    rewrite Nat2Z.inj_sub by lia. rewrite Nat2Z.inj_mod. reflexivity. }
  lia.
Qed.

(** The blocks of [pad(P, 8)]. *)
Lemma pad_blocks (P : bytes) :
  Forall is_byte P ->
  exists L, pad P 8 = Ok (concat L) /\ Forall blk8 L /\
            length L = (length P / 8 + 1)%nat /\ slices 8 (concat L) = L /\
            unpad (concat L) 8 = P.
Proof.
  intros HP. destruct (pad8 P) as [Hn8 Hp].
  set (n := 8 - Z.of_nat (length P) mod 8) in *.
  destruct (split_uniform 8 (length P / 8 + 1) (P ++ repeat n (Z.to_nat n)))
    as (L & HL & HLu & HLl).
  { rewrite (padded_length P n) by reflexivity. lia. }
  exists L. rewrite <- HL. split; [exact Hp|].
  split; [|split; [exact HLl|split]].
  - assert (Hb : Forall (Forall is_byte) L).
    { apply Forall_concat_inv. rewrite <- HL. apply Forall_app.
      split; [assumption|apply padding_bytes; assumption]. }
    clear HL HLl. induction HLu as [|c L Hc HLu IH]; [constructor|].
    inversion Hb; subst. constructor; [split|]; auto.
  - rewrite HL. apply slices_concat; auto; lia.
  - apply unpad_pad_bytes. assumption.
Qed.

End Blocks.

Lemma mode_init64 (k : ModeKind) (d : DES) :
  block_size d = 64 -> BaseMode_init k (Some d) = mkMode k (Some d) 8 (iv d).
Proof. intros H. unfold BaseMode_init. rewrite H. reflexivity. Qed.

Lemma get_blocks8 (k : ModeKind) (d : DES) (v : option bytes) (data : bytes) :
  get_blocks (mkMode k (Some d) 8 v) data = Ok (slices 8 data).
Proof. reflexivity. Qed.

Lemma blk8_iv (v : bytes) :
  length v = 8%nat -> iv_truthy (Some v) = Some v.
Proof. destruct v; [discriminate|reflexivity]. Qed.


Lemma blk8_len (Cs : list bytes) :
  Forall blk8 Cs -> Forall (fun c => length c = 8%nat) Cs.
Proof. intros H. eapply Forall_impl; [|exact H]. intros ? []; assumption. Qed.

Section Streams.

Lemma bxor_app (a b k1 k2 : bytes) :
  length a = length k1 -> bxor (a ++ b) (k1 ++ k2) = bxor a k1 ++ bxor b k2.
Proof.
  revert k1; induction a as [|x a IH]; intros [|y k1] H; simpl in H;
    try discriminate; [reflexivity|].
  cbn. f_equal. apply IH. lia.
Qed.

Lemma bxor_app_l (a b K : bytes) :
  (length a <= length K)%nat ->
  bxor (a ++ b) K = bxor a K ++ bxor b (skipn (length a) K).
Proof.
  intros H. rewrite <- (firstn_skipn (length a) K) at 1.
  rewrite bxor_app by (rewrite length_firstn; lia).
  f_equal. clear b. revert K H; induction a as [|x a IH]; intros [|y K] H;
    simpl in *; try lia; try reflexivity. cbn. f_equal. apply IH. lia.
Qed.

Lemma concat_zipWith_bxor (L ks : list bytes) :
  Forall (fun c => length c = 8%nat) L -> Forall (fun c => length c = 8%nat) ks ->
  (length L <= length ks)%nat ->
  concat (zipWith bxor L ks) = bxor (concat L) (concat ks).
Proof.
  intros HL. revert ks. induction HL as [|c L Hc HL IH]; intros ks Hks Hlen.
  - reflexivity.
  - destruct ks as [|k ks]; simpl in Hlen; [lia|]. inversion Hks; subst.
    cbn [zipWith concat]. rewrite bxor_app by congruence. f_equal.
    apply IH; auto. lia.
Qed.

Lemma bxor_twice (X X' K : bytes) :
  length X = length X' -> (length X <= length K)%nat ->
  bxor (bxor X K) (bxor X' K) = bxor X X'.
Proof.
  revert X' K; induction X as [|x X IH]; intros [|x' X'] [|k K] H1 H2;
    simpl in *; try lia; try reflexivity.
  cbn. f_equal.
  - rewrite (Z.lxor_comm x' k), Z.lxor_assoc, <- (Z.lxor_assoc k k),
      Z.lxor_nilpotent, Z.lxor_0_l. reflexivity.
  - apply IH; lia.
Qed.

Lemma bxor_self (a : bytes) : bxor a a = repeat 0 (length a).
Proof.
  induction a as [|x a IH]; [reflexivity|]. cbn. rewrite Z.lxor_nilpotent.
  f_equal. exact IH.
Qed.

Lemma pad_result (Q : bytes) :
  let n := 8 - Z.of_nat (length Q) mod 8 in
  exists L, pad Q 8 = Ok (concat L) /\ concat L = Q ++ repeat n (Z.to_nat n) /\
    Forall (fun c => length c = 8%nat) L /\ length L = (length Q / 8 + 1)%nat /\
    slices 8 (concat L) = L.
Proof.
  intros n. destruct (pad8 Q) as [Hn8 Hp]. fold n in Hp, Hn8.
  destruct (split_uniform 8 (length Q / 8 + 1) (Q ++ repeat n (Z.to_nat n)))
    as (L & HL & HLu & HLl).
  { rewrite (padded_length Q n) by reflexivity. lia. }
  exists L. rewrite <- HL. repeat split; auto.
  rewrite HL. apply slices_concat; auto; lia.
Qed.

Lemma pad_mult8 (C : bytes) (j : nat) :
  length C = (8 * j)%nat -> pad C 8 = Ok (C ++ repeat 8 8).
Proof.
  intros H. destruct (pad8 C) as [_ Hp]. rewrite Hp, H. f_equal.
  rewrite Nat2Z.inj_mul, Z.mul_comm, Z_mod_mult. reflexivity.
Qed.

(** OFB and CTR encryption xor the padded input with a keystream that depends
    on the engine and the IV only. *)
Lemma stream_encrypt (m : ModeKind) (d : DES) (v : bytes) (n : nat) :
  m = OFB \/ m = CTR ->
  length (subkeys d) = Z.to_nat (rounds d) ->
  Forall (fun k => length k = 48%nat) (subkeys d) ->
  block_size d = 64 -> iv d = Some v -> blk8 v ->
  (m = CTR -> int_from_bytes v + Z.of_nat n <= 2 ^ 64) ->
  exists K, length K = (8 * n)%nat /\ Forall is_byte K /\
    forall Q, (length Q / 8 + 1 <= n)%nat ->
      mode_encrypt (BaseMode_init m (Some d)) Q =
      Ok (bxor (Q ++ repeat (8 - Z.of_nat (length Q) mod 8)
                  (Z.to_nat (8 - Z.of_nat (length Q) mod 8))) K).
Proof.
  intros Hm Hn H48 Hbs Hiv [Hlv Hbv] Hc.
  assert (Hstream : exists ks, length ks = n /\ Forall blk8 ks /\
            forall L, (length L <= n)%nat ->
              match m with
              | OFB => ofb_loop d v L
              | _ => ctr_loop d 8 (int_from_bytes v) L
              end = Ok (zipWith bxor L ks)).
  { destruct Hm as [-> | ->].
    - apply ofb_stream; auto. split; auto.
    - apply ctr_stream; [assumption | assumption |
        apply int_from_bytes_bound; assumption | apply Hc; reflexivity]. }
  destruct Hstream as (ks & Hks & Hksb & Hloop).
  pose proof (blk8_len ks Hksb) as Hu.
  exists (concat ks). split; [|split].
  - rewrite (length_concat_uniform 8) by assumption. unfold bytes in *. lia.
  - clear -Hksb. induction Hksb as [|c ks [_ Hc] _ IH]; simpl; auto.
    apply Forall_app; auto.
  - intros Q HQ. destruct (pad_result Q) as (L & Hp & HL & HLu & HLl & Hsl).
    rewrite mode_init64 by assumption.
    unfold mode_encrypt. cbn [des kind mode_iv block_size_bytes].
    rewrite Hiv, (blk8_iv v Hlv), Hp.
    destruct Hm as [-> | ->]; cbn [bind]; rewrite get_blocks8, Hsl; cbn [bind];
      [specialize (Hloop L) | specialize (Hloop L)]; cbn in Hloop;
      rewrite Hloop by (unfold bytes in *; lia); cbn [bind];
      rewrite concat_zipWith_bxor by (auto; unfold bytes in *; lia);
      rewrite HL; reflexivity.
Qed.

End Streams.

(** ECB, CBC and CFB on an engine with well-formed subkeys. *)
Lemma block_mode_rt (m : ModeKind) (d : DES) (v P : bytes) :
  m <> OFB -> m <> CTR ->
  length (subkeys d) = Z.to_nat (rounds d) ->
  Forall (fun k => length k = 48%nat) (subkeys d) ->
  block_size d = 64 -> iv d = Some v -> blk8 v -> Forall is_byte P ->
  exists Cs, mode_encrypt (BaseMode_init m (Some d)) P = Ok (concat Cs) /\
    Forall blk8 Cs /\ length Cs = (length P / 8 + 1)%nat /\
    mode_decrypt (BaseMode_init m (Some d)) (concat Cs) = Ok P.
Proof.
  intros Hm1 Hm2 Hn H48 Hbs Hiv [Hlv Hbv] HP.
  destruct (pad_blocks P HP) as (L & Hp & HL & HLl & Hsl & Hun).
  rewrite (mode_init64 m d Hbs).
  unfold mode_encrypt, mode_decrypt. cbn [des kind mode_iv block_size_bytes].
  rewrite Hiv, (blk8_iv v Hlv), Hp. cbn [bind]. rewrite get_blocks8, Hsl.
  cbn [bind].
  destruct m; try congruence.
  - destruct (ecb_loop_rt d Hn H48 L HL) as (Cs & E & HCs & Hlen & D).
    rewrite E. cbn [bind]. exists Cs. split; [reflexivity|].
    split; [exact HCs|]. split; [unfold bytes in *; lia|].
    rewrite get_blocks8, slices_concat by (lia || apply blk8_len, HCs).
    cbn [bind]. rewrite D. cbn [bind]. rewrite Hun. reflexivity.
  - destruct (cbc_loop_rt d Hn H48 v L (conj Hlv Hbv) HL) as (Cs & E & HCs & Hlen & D).
    rewrite E. cbn [bind]. exists Cs. split; [reflexivity|].
    split; [exact HCs|]. split; [unfold bytes in *; lia|].
    rewrite get_blocks8, slices_concat by (lia || apply blk8_len, HCs).
    cbn [bind]. rewrite D. cbn [bind]. rewrite Hun. reflexivity.
  - destruct (cfb_loop_rt d Hn H48 v L (conj Hlv Hbv) HL) as (Cs & E & HCs & Hlen & D).
    rewrite E. cbn [bind]. exists Cs. split; [reflexivity|].
    split; [exact HCs|]. split; [unfold bytes in *; lia|].
    rewrite get_blocks8, slices_concat by (lia || apply blk8_len, HCs).
    cbn [bind]. rewrite D. cbn [bind]. rewrite Hun. reflexivity.
Qed.

(** An engine built by [DES.__init__] from a key of bytes has [rounds]
    subkeys of 48 bits. *)
Lemma DES_init_wf (k : bytes) (bs R kl : Z) (v : option bytes) :
  Forall is_byte k ->
  exists d, DES_init k bs R kl v = Ok d /\ block_size d = bs /\ iv d = v /\
    length (subkeys d) = Z.to_nat (rounds d) /\
    Forall (fun sk => length sk = 48%nat) (subkeys d).
Proof.
  intros Hk.
  destruct (DES_init_spec k bs R kl v Hk)
    as (d & Ed & Hbs & Hr & _ & Hiv & _ & _ & Hks).
  destruct (key_schedule_spec_shape (key d) (Z.to_nat R)) as [Hn H48].
  rewrite <- Hks in Hn, H48. rewrite <- Hr in Hn.
  exists d. auto.
Qed.

(** X1: in ECB, CBC and CFB, for every key, every round count and every
    8-byte IV, [decrypt] recovers the plaintext from the ciphertext that
    [encrypt] returns. *)
Theorem ecb_cbc_cfb_roundtrip (m : ModeKind) (k : bytes) (R kl : Z) (v P : bytes) :
  m <> OFB -> m <> CTR ->
  Forall is_byte k -> length v = 8%nat -> Forall is_byte v -> Forall is_byte P ->
  exists d C, DES_init k 64 R kl (Some v) = Ok d /\
    mode_encrypt (BaseMode_init m (Some d)) P = Ok C /\
    mode_decrypt (BaseMode_init m (Some d)) C = Ok P.
Proof.
  intros Hm1 Hm2 Hk Hlv Hbv HP.
  destruct (DES_init_wf k 64 R kl (Some v) Hk) as (d & Ed & Hbs & Hiv & Hn & H48).
  destruct (block_mode_rt m d v P Hm1 Hm2 Hn H48 Hbs Hiv (conj Hlv Hbv) HP)
    as (Cs & E & _ & _ & D).
  exists d, (concat Cs). auto.
Qed.

(** X2: in every mode the ciphertext is the padded plaintext's length,
    [8 * (len(P) // 8 + 1)] bytes (in CTR, while the counter stays below
    [2^64]). *)
Theorem mode_ciphertext_length (m : ModeKind) (k : bytes) (R kl : Z) (v P : bytes) :
  Forall is_byte k -> length v = 8%nat -> Forall is_byte v -> Forall is_byte P ->
  (m = CTR -> int_from_bytes v + Z.of_nat (length P / 8 + 1) <= 2 ^ 64) ->
  exists d C, DES_init k 64 R kl (Some v) = Ok d /\
    mode_encrypt (BaseMode_init m (Some d)) P = Ok C /\
    length C = (8 * (length P / 8 + 1))%nat.
Proof.
  intros Hk Hlv Hbv HP Hc.
  destruct (DES_init_wf k 64 R kl (Some v) Hk) as (d & Ed & Hbs & Hiv & Hn & H48).
  exists d.
  assert (Hs : m = OFB \/ m = CTR \/ (m <> OFB /\ m <> CTR))
    by (destruct m; auto; right; right; split; discriminate).
  destruct Hs as [Hm | [Hm | [Hm1 Hm2]]].
  1, 2: destruct (stream_encrypt m d v (length P / 8 + 1)) as (K & HK & _ & Henc);
    auto; try (split; assumption);
    eexists; split; [exact Ed|]; rewrite Henc by lia; split; [reflexivity|];
    rewrite bxor_length, HK, (padded_length P _ eq_refl); lia.
  destruct (block_mode_rt m d v P Hm1 Hm2 Hn H48 Hbs Hiv (conj Hlv Hbv) HP)
    as (Cs & E & HCs & Hlen & _).
  exists (concat Cs). split; [exact Ed|]. split; [exact E|].
  rewrite (length_concat_uniform 8) by (apply blk8_len, HCs). unfold bytes in *. lia.
Qed.

(** X3: in OFB and CTR, [decrypt(encrypt(P))] is [pad(P)] followed by eight
    further bytes. *)
Theorem ofb_ctr_decrypt_encrypt (m : ModeKind) (k : bytes) (R kl : Z) (v P : bytes) :
  m = OFB \/ m = CTR ->
  Forall is_byte k -> length v = 8%nat -> Forall is_byte v ->
  (m = CTR -> int_from_bytes v + Z.of_nat (length P / 8 + 2) <= 2 ^ 64) ->
  let n := 8 - Z.of_nat (length P) mod 8 in
  exists d C T, DES_init k 64 R kl (Some v) = Ok d /\
    mode_encrypt (BaseMode_init m (Some d)) P = Ok C /\
    mode_decrypt (BaseMode_init m (Some d)) C = Ok (P ++ repeat n (Z.to_nat n) ++ T) /\
    length T = 8%nat.
Proof.
  intros Hm Hk Hlv Hbv Hc n.
  destruct (DES_init_wf k 64 R kl (Some v) Hk) as (d & Ed & Hbs & Hiv & Hn & H48).
  destruct (stream_encrypt m d v (length P / 8 + 2) Hm Hn H48 Hbs Hiv (conj Hlv Hbv) Hc)
    as (K & HK & _ & Henc).
  set (X := P ++ repeat n (Z.to_nat n)).
  assert (HX : length X = (8 * (length P / 8 + 1))%nat)
    by (apply padded_length; reflexivity).
  set (C := bxor X K).
  assert (HC : length C = (8 * (length P / 8 + 1))%nat)
    by (unfold C; rewrite bxor_length, HX, HK; lia).
  exists d, C, (bxor (repeat 8 8) (skipn (length C) K)).
  split; [exact Ed|]. split; [rewrite Henc by lia; reflexivity|].
  assert (Hdec : mode_decrypt (BaseMode_init m (Some d)) C =
                 mode_encrypt (BaseMode_init m (Some d)) C)
    by (destruct Hm as [-> | ->]; reflexivity).
  rewrite Hdec, Henc.
  2:{ rewrite HC. rewrite Nat.mul_comm, Nat.div_mul by lia. lia. }
  replace (8 - Z.of_nat (length C) mod 8) with 8
    by (rewrite HC, Nat2Z.inj_mul, Z.mul_comm, Z_mod_mult; reflexivity).
  change (Z.to_nat 8) with 8%nat.
  rewrite bxor_app_l by (rewrite HC, HK; lia).
  unfold C at 1. rewrite bxor_cancel by (rewrite HX, HK; lia).
  unfold X. rewrite <- app_assoc. split; [reflexivity|].
  rewrite bxor_length, repeat_length, length_skipn, HK, HC. lia.
Qed.

(** X4: in OFB and CTR, the xor of the ciphertexts of two plaintexts of the same
    length under the same engine and IV is the xor of the plaintexts, followed
    by zeros over the padding. *)
Theorem ofb_ctr_keystream_reuse (m : ModeKind) (k : bytes) (R kl : Z) (v P P' : bytes) :
  m = OFB \/ m = CTR ->
  Forall is_byte k -> length v = 8%nat -> Forall is_byte v ->
  length P = length P' ->
  (m = CTR -> int_from_bytes v + Z.of_nat (length P / 8 + 1) <= 2 ^ 64) ->
  exists d C C', DES_init k 64 R kl (Some v) = Ok d /\
    mode_encrypt (BaseMode_init m (Some d)) P = Ok C /\
    mode_encrypt (BaseMode_init m (Some d)) P' = Ok C' /\
    bxor C C' =
      bxor P P' ++ repeat 0 (Z.to_nat (8 - Z.of_nat (length P) mod 8)).
Proof.
  intros Hm Hk Hlv Hbv HPP' Hc.
  destruct (DES_init_wf k 64 R kl (Some v) Hk) as (d & Ed & Hbs & Hiv & Hn & H48).
  destruct (stream_encrypt m d v (length P / 8 + 1) Hm Hn H48 Hbs Hiv (conj Hlv Hbv) Hc)
    as (K & HK & _ & Henc).
  do 3 eexists. split; [exact Ed|].
  split; [rewrite Henc by lia; reflexivity|].
  split; [rewrite Henc by (unfold bytes in *; rewrite <- HPP'; lia); reflexivity|].
  rewrite <- HPP'.
  set (n := 8 - Z.of_nat (length P) mod 8).
  rewrite bxor_twice.
  - rewrite bxor_app by exact HPP'. rewrite bxor_self, repeat_length. reflexivity.
  - rewrite !length_app. lia.
  - rewrite (padded_length P n) by reflexivity. lia.
Qed.

Section Slicing.

Lemma slices_fuel_indep {A : Type} (n : nat) (l : list A) (f1 f2 : nat) :
  (0 < n)%nat -> (length l <= f1)%nat -> (length l <= f2)%nat ->
  slices_fuel f1 n l = slices_fuel f2 n l.
Proof.
  intros Hn. revert l f2. induction f1 as [|f1 IH]; intros l f2 H1 H2.
  - destruct l; simpl in H1; [|lia]. destruct f2; reflexivity.
  - destruct f2 as [|f2].
    + destruct l; simpl in H2; [reflexivity|lia].
    + destruct l as [|x l]; [reflexivity|]. cbn [slices_fuel].
      f_equal. apply IH; rewrite length_skipn; cbn [length] in *; lia.
Qed.

Lemma slices_cons {A : Type} (n : nat) (c r : list A) :
  (0 < n)%nat -> length c = n -> slices n (c ++ r) = c :: slices n r.
Proof.
  intros Hn Hc. unfold slices.
  destruct c as [|x c']; [simpl in Hc; lia|].
  rewrite length_app. cbn [length Nat.add slices_fuel].
  rewrite <- app_comm_cons.
  destruct (firstn_skipn_block (x :: c') r n Hc) as [H1 H2].
  rewrite <- app_comm_cons in H1, H2. rewrite H1, H2. f_equal.
  apply slices_fuel_indep; auto. simpl in Hc. lia.
Qed.

Lemma slices_app_concat {A : Type} (n : nat) (L : list (list A)) (r : list A) :
  (0 < n)%nat -> Forall (fun c => length c = n) L ->
  slices n (concat L ++ r) = L ++ slices n r.
Proof.
  intros Hn HL. induction HL as [|c L Hc HL IH]; [reflexivity|].
  cbn [concat]. rewrite <- app_assoc, slices_cons by auto. rewrite IH. reflexivity.
Qed.

Lemma slices_short {A : Type} (n : nat) (r : list A) :
  (length r < n)%nat -> slices n r = match r with [] => [] | _ => [r] end.
Proof.
  intros H. destruct r as [|x r']; [reflexivity|]. unfold slices.
  cbn [length slices_fuel]. rewrite firstn_all2, skipn_all2 by (simpl in *; lia).
  destruct (length r'); reflexivity.
Qed.

(** The blocks of any byte string: whole blocks, then a shorter remainder. *)
Lemma blocks_decompose (C : bytes) :
  Forall is_byte C ->
  exists L r, C = concat L ++ r /\ Forall blk8 L /\ Forall is_byte r /\
    length r = (length C mod 8)%nat /\
    slices 8 C = L ++ match r with [] => [] | _ => [r] end.
Proof.
  intros HC.
  destruct (split_uniform 8 (length C / 8) (firstn (8 * (length C / 8)) C))
    as (L & HL & HLu & HLl).
  { rewrite length_firstn. pose proof (Nat.div_mod (length C) 8 ltac:(lia)). lia. }
  exists L, (skipn (8 * (length C / 8)) C).
  assert (HCs : C = concat L ++ skipn (8 * (length C / 8)) C)
    by (rewrite <- HL; symmetry; apply firstn_skipn).
  assert (Hr : length (skipn (8 * (length C / 8)) C) = (length C mod 8)%nat).
  { rewrite length_skipn. pose proof (Nat.div_mod (length C) 8 ltac:(lia)). lia. }
  rewrite HCs in HC. apply Forall_app in HC as [HCL HCr].
  rewrite <- HCs. split; [reflexivity|]. split; [|split; [exact HCr|split; [exact Hr|]]].
  - apply Forall_concat_inv in HCL. clear -HLu HCL.
    induction HLu; [constructor|]. inversion HCL; subst. constructor; [split|]; auto.
  - rewrite HCs at 1. rewrite slices_app_concat by (auto; lia).
    rewrite slices_short; [reflexivity|].
    rewrite Hr. apply Nat.mod_upper_bound. lia.
Qed.

Lemma mapM_app {A B : Type} (f : A -> Result B) (l1 l2 : list A) :
  mapM f (l1 ++ l2) = (x <- mapM f l1;; y <- mapM f l2;; Ok (x ++ y)).
Proof.
  induction l1 as [|a l1 IH]; simpl.
  - destruct (mapM f l2); reflexivity.
  - destruct (f a); [|reflexivity]. cbn [bind]. rewrite IH.
    destruct (mapM f l1); [|reflexivity]. cbn [bind].
    destruct (mapM f l2); reflexivity.
Qed.

End Slicing.

(** X5: ECB encrypts each block on its own: the ciphertext of [P1 ++ P2], with
    [len(P1)] a multiple of 8, is the blockwise encryption of [P1] followed by
    the ciphertext of [P2]. *)
Theorem ecb_blockwise (d : DES) (P1 P2 : bytes) :
  block_size d = 64 -> (length P1 mod 8 = 0)%nat ->
  mode_encrypt (BaseMode_init ECB (Some d)) (P1 ++ P2) =
  (C1 <- mapM (encrypt_block d) (slices 8 P1);;
   C2 <- mode_encrypt (BaseMode_init ECB (Some d)) P2;;
   Ok (concat C1 ++ C2)).
Proof.
  intros Hbs H1.
  rewrite mode_init64 by assumption. unfold mode_encrypt. cbn [des kind block_size_bytes].
  destruct (pad8 (P1 ++ P2)) as [_ Hp]. destruct (pad8 P2) as [_ Hp2].
  rewrite Hp, Hp2. cbn [bind].
  replace (Z.of_nat (length (P1 ++ P2)) mod 8) with (Z.of_nat (length P2) mod 8).
  2:{ assert (E : length P1 = (8 * (length P1 / 8))%nat)
        by (pose proof (Nat.div_mod (length P1) 8 ltac:(lia)); lia).
      rewrite length_app, E, Nat2Z.inj_add, Nat2Z.inj_mul, Z.add_comm,
        (Z.mul_comm 8), Z_mod_plus_full. reflexivity. }
  rewrite !get_blocks8. cbn [bind].
  destruct (split_uniform 8 (length P1 / 8) P1) as (L1 & HL1 & HLu & _).
  { pose proof (Nat.div_mod (length P1) 8 ltac:(lia)). lia. }
  rewrite HL1, <- app_assoc, slices_app_concat, slices_concat by (auto; lia).
  rewrite mapM_app.
  destruct (mapM (encrypt_block d) L1) as [c1|]; cbn [bind]; [|reflexivity].
  destruct (mapM (encrypt_block d) _) as [c2|]; cbn [bind]; [|reflexivity].
  rewrite concat_app. reflexivity.
Qed.

Lemma cbc_decrypt_loop_local (d : DES) (prev : bytes) (blocks : list bytes) :
  cbc_decrypt_loop d prev blocks =
  mapM (fun pc => x <- decrypt_block d (snd pc);; Ok (bxor x (fst pc)))
       (combine (prev :: blocks) blocks).
Proof.
  revert prev. induction blocks as [|b blocks IH]; intros prev; [reflexivity|].
  cbn [cbc_decrypt_loop combine mapM fst snd]. rewrite IH.
  destruct (decrypt_block d b); reflexivity.
Qed.

Lemma cfb_decrypt_loop_local (d : DES) (prev : bytes) (blocks : list bytes) :
  cfb_decrypt_loop d prev blocks =
  mapM (fun pc => e <- encrypt_block d (fst pc);; Ok (bxor (snd pc) e))
       (combine (prev :: blocks) blocks).
Proof.
  revert prev. induction blocks as [|b blocks IH]; intros prev; [reflexivity|].
  cbn [cfb_decrypt_loop combine mapM fst snd]. rewrite IH.
  destruct (encrypt_block d prev); reflexivity.
Qed.

(** X6: CBC and CFB decryption compute plaintext block [i] from ciphertext
    blocks [i-1] (the IV for the first block) and [i] alone. *)
Theorem cbc_cfb_decrypt_local (d : DES) (v C : bytes) :
  block_size d = 64 -> iv d = Some v -> v <> [] ->
  mode_decrypt (BaseMode_init CBC (Some d)) C =
    (out <- mapM (fun pc => x <- decrypt_block d (snd pc);; Ok (bxor x (fst pc)))
                 (combine (v :: slices 8 C) (slices 8 C));;
     Ok (unpad (concat out) 8)) /\
  mode_decrypt (BaseMode_init CFB (Some d)) C =
    (out <- mapM (fun pc => e <- encrypt_block d (fst pc);; Ok (bxor (snd pc) e))
                 (combine (v :: slices 8 C) (slices 8 C));;
     Ok (unpad (concat out) 8)).
Proof.
  intros Hbs Hiv Hv.
  assert (Ht : iv_truthy (Some v) = Some v) by (destruct v; [congruence|reflexivity]).
  rewrite !mode_init64 by assumption.
  unfold mode_decrypt. cbn [des kind mode_iv block_size_bytes].
  rewrite Hiv, Ht, !get_blocks8. cbn [bind].
  rewrite cbc_decrypt_loop_local, cfb_decrypt_loop_local. split; reflexivity.
Qed.

Section DecryptErrors.

Variable d : DES.
Hypothesis Hn : length (subkeys d) = Z.to_nat (rounds d).
Hypothesis H48 : Forall (fun k => length k = 48%nat) (subkeys d).

Lemma process_block_bad_length (dm : bool) (B : bytes) :
  length B <> 8%nat -> process_block d B dm = Err ValueError.
Proof.
  intros H. unfold process_block.
  replace (length B =? 8)%nat with false by (symmetry; apply Nat.eqb_neq; exact H).
  reflexivity.
Qed.

Lemma ecb_decrypt_blocks (L : list bytes) (r : bytes) :
  Forall blk8 L ->
  (exists out, mapM (decrypt_block d) L = Ok out) /\
  (r <> [] -> length r <> 8%nat ->
   mapM (decrypt_block d) (L ++ [r]) = Err ValueError).
Proof.
  induction 1 as [|B L HB HL IH].
  - split; [eexists; reflexivity|]. intros _ Hr. cbn.
    unfold decrypt_block. rewrite process_block_bad_length by exact Hr. reflexivity.
  - destruct (dec_ok d Hn H48 B HB) as (X & EX & _). destruct IH as [[out Eo] IH].
    split.
    + cbn [mapM]. rewrite EX, Eo. eexists. reflexivity.
    + intros Hr1 Hr2. cbn [app mapM]. rewrite EX. cbn [bind]. rewrite IH by auto.
      reflexivity.
Qed.

Lemma cbc_decrypt_blocks (prev : bytes) (L : list bytes) (r : bytes) :
  Forall blk8 L ->
  (exists out, cbc_decrypt_loop d prev L = Ok out) /\
  (r <> [] -> length r <> 8%nat ->
   cbc_decrypt_loop d prev (L ++ [r]) = Err ValueError).
Proof.
  intros HL. revert prev. induction HL as [|B L HB HL IH]; intros prev.
  - split; [eexists; reflexivity|]. intros _ Hr. cbn.
    unfold decrypt_block. rewrite process_block_bad_length by exact Hr. reflexivity.
  - destruct (dec_ok d Hn H48 B HB) as (X & EX & _). destruct (IH B) as [[out Eo] IH'].
    split.
    + cbn [cbc_decrypt_loop]. rewrite EX. cbn [bind]. rewrite Eo. eexists. reflexivity.
    + intros Hr1 Hr2. cbn [app cbc_decrypt_loop]. rewrite EX. cbn [bind].
      rewrite IH' by auto. reflexivity.
Qed.

Lemma cfb_decrypt_blocks (prev : bytes) (L : list bytes) (rs : list bytes) :
  blk8 prev -> Forall blk8 L -> (length rs <= 1)%nat ->
  exists out, cfb_decrypt_loop d prev (L ++ rs) = Ok out.
Proof.
  intros Hp HL Hrs. revert prev Hp. induction HL as [|B L HB HL IH]; intros prev Hp.
  - destruct rs as [|r [|r' rs]]; simpl in Hrs; try lia.
    + eexists. reflexivity.
    + destruct (enc_ok d Hn H48 prev Hp) as (E & EE & _).
      cbn. rewrite EE. eexists. reflexivity.
  - destruct (enc_ok d Hn H48 prev Hp) as (E & EE & _).
    destruct (IH B HB) as (out & Eo).
    cbn [app cfb_decrypt_loop]. rewrite EE. cbn [bind]. rewrite Eo. eexists. reflexivity.
Qed.

End DecryptErrors.

(** X7: ECB and CBC [decrypt] succeed on every byte string whose length is a
    multiple of 8 (no padding is checked) and raise [ValueError] on every
    other length. *)
Theorem ecb_cbc_decrypt_length (m : ModeKind) (k : bytes) (R kl : Z) (v C : bytes) :
  m = ECB \/ m = CBC ->
  Forall is_byte k -> length v = 8%nat -> Forall is_byte v -> Forall is_byte C ->
  exists d, DES_init k 64 R kl (Some v) = Ok d /\
    ((length C mod 8 = 0)%nat ->
       exists Q, mode_decrypt (BaseMode_init m (Some d)) C = Ok Q) /\
    ((length C mod 8 <> 0)%nat ->
       mode_decrypt (BaseMode_init m (Some d)) C = Err ValueError).
Proof.
  intros Hm Hk Hlv Hbv HC.
  destruct (DES_init_wf k 64 R kl (Some v) Hk) as (d & Ed & Hbs & Hiv & Hn & H48).
  exists d. split; [exact Ed|].
  destruct (blocks_decompose C HC) as (L & r & _ & HL & _ & Hr & Hsl).
  rewrite mode_init64 by assumption.
  unfold mode_decrypt. cbn [des kind mode_iv block_size_bytes].
  rewrite Hiv, (blk8_iv v Hlv), get_blocks8, Hsl.
  destruct (ecb_decrypt_blocks d Hn H48 L r HL) as [[o1 E1] F1].
  destruct (cbc_decrypt_blocks d Hn H48 v L r HL) as [[o2 E2] F2].
  split; intros Hc.
  - rewrite Hc in Hr. destruct r; [|discriminate]. rewrite app_nil_r.
    destruct Hm as [-> | ->]; cbn [bind]; [rewrite E1 | rewrite E2]; cbn [bind];
      eexists; reflexivity.
  - destruct r as [|x r']; [cbn [length] in Hr; lia|].
    assert (Hr8 : length (x :: r') <> 8%nat)
      by (rewrite Hr; pose proof (Nat.mod_upper_bound (length C) 8 ltac:(lia)); lia).
    change (match x :: r' with [] => [] | _ => [x :: r'] end) with [x :: r'].
    unfold bytes in *.
    destruct Hm as [-> | ->]; cbn [bind]; [rewrite F1 | rewrite F2];
      try discriminate; auto.
Qed.

(** X8: CFB [decrypt] succeeds on every byte string, whatever its length. *)
Theorem cfb_decrypt_total (k : bytes) (R kl : Z) (v C : bytes) :
  Forall is_byte k -> length v = 8%nat -> Forall is_byte v -> Forall is_byte C ->
  exists d Q, DES_init k 64 R kl (Some v) = Ok d /\
    mode_decrypt (BaseMode_init CFB (Some d)) C = Ok Q.
Proof.
  intros Hk Hlv Hbv HC.
  destruct (DES_init_wf k 64 R kl (Some v) Hk) as (d & Ed & Hbs & Hiv & Hn & H48).
  destruct (blocks_decompose C HC) as (L & r & _ & HL & _ & Hr & Hsl).
  exists d. rewrite mode_init64 by assumption.
  unfold mode_decrypt. cbn [des kind mode_iv block_size_bytes].
  rewrite Hiv, (blk8_iv v Hlv), get_blocks8, Hsl. cbn [bind].
  destruct (cfb_decrypt_blocks d Hn H48 v L (match r with [] => [] | _ => [r] end)
              (conj Hlv Hbv) HL) as (out & Eo).
  { destruct r; simpl; lia. }
  unfold bytes in *. rewrite Eo. exists (unpad (concat out) 8).
  split; [exact Ed|reflexivity].
Qed.

(** X9: decrypting the empty string gives the empty string in ECB, CBC and
    CFB, and eight bytes in OFB and CTR. *)
Theorem decrypt_empty (m : ModeKind) (k : bytes) (R kl : Z) (v : bytes) :
  Forall is_byte k -> length v = 8%nat -> Forall is_byte v ->
  exists d Q, DES_init k 64 R kl (Some v) = Ok d /\
    mode_decrypt (BaseMode_init m (Some d)) [] = Ok Q /\
    (m = OFB \/ m = CTR -> length Q = 8%nat) /\
    (m <> OFB -> m <> CTR -> Q = []).
Proof.
  intros Hk Hlv Hbv.
  destruct (DES_init_wf k 64 R kl (Some v) Hk) as (d & Ed & Hbs & Hiv & Hn & H48).
  exists d.
  assert (Hs : m = OFB \/ m = CTR \/ (m <> OFB /\ m <> CTR))
    by (destruct m; auto; right; right; split; discriminate).
  destruct Hs as [Hm | [Hm | [Hm1 Hm2]]].
  1, 2: destruct (stream_encrypt m d v 1) as (K & HK & _ & Henc); auto;
    try (split; assumption);
    try (intros _; pose proof (int_from_bytes_bound v Hbv) as Hb; rewrite Hlv in Hb;
         simpl in Hb |- *; lia);
    eexists; split; [exact Ed|];
    (assert (Hdec : mode_decrypt (BaseMode_init m (Some d)) [] =
                    mode_encrypt (BaseMode_init m (Some d)) [])
       by (subst m; reflexivity));
    rewrite Hdec, Henc by (simpl; lia); split; [reflexivity|];
    split; [intros _; rewrite bxor_length, HK; reflexivity | intros; congruence].
  exists []. split; [exact Ed|].
  rewrite mode_init64 by assumption.
  unfold mode_decrypt. cbn [des kind mode_iv block_size_bytes].
  rewrite Hiv, (blk8_iv v Hlv).
  split; [destruct m; try congruence; reflexivity|].
  split; [intros [H|H]; congruence | reflexivity].
Qed.

Section BlockSize.

Lemma pad_shape (P : bytes) (b : Z) :
  0 < b ->
  (exists padded, pad P b = Ok padded /\ padded <> [] /\
     (Z.to_nat b <= length padded)%nat) \/ pad P b = Err ValueError.
Proof.
  intros Hb. unfold pad.
  replace (b =? 0) with false by (symmetry; apply Z.eqb_neq; lia).
  pose proof (Z.mod_pos_bound (Z.of_nat (length P)) b Hb) as Hm.
  pose proof (Z.div_mod (Z.of_nat (length P)) b ltac:(lia)) as Hdm.
  pose proof (Z.div_pos (Z.of_nat (length P)) b ltac:(lia) Hb) as Hq.
  set (p := b - Z.of_nat (length P) mod b) in *.
  replace (p =? 0) with false by (symmetry; apply Z.eqb_neq; unfold p; lia).
  destruct ((p <? 0) || (256 <=? p)); [right; reflexivity|left].
  eexists. split; [reflexivity|]. split.
  - destruct (Z.to_nat p) eqn:E; [unfold p in E; lia|].
    destruct P; discriminate.
  - rewrite length_app, repeat_length. unfold p in *. nia.
Qed.

Lemma slices_first {A : Type} (n : nat) (l : list A) :
  (0 < n)%nat -> (n <= length l)%nat ->
  exists b rest, slices n l = b :: rest /\ length b = n.
Proof.
  intros Hn Hl. unfold slices. destruct l as [|x l']; [simpl in Hl; lia|].
  cbn [length slices_fuel]. eexists _, _. split; [reflexivity|].
  rewrite length_firstn. cbn [length] in *. lia.
Qed.

End BlockSize.

(** X10: with an engine whose block size in bytes ([block_size // 8]) is not 0
    or 8 and, outside ECB, an IV of that many bytes, [encrypt] raises
    [ValueError] in every mode. *)
Theorem block_size_not_64 (m : ModeKind) (d : DES) (v P : bytes) :
  block_size d / 8 <> 0 -> block_size d / 8 <> 8 ->
  (m <> ECB -> iv d = Some v /\ Z.of_nat (length v) = block_size d / 8 /\
               Forall is_byte v) ->
  mode_encrypt (BaseMode_init m (Some d)) P = Err ValueError.
Proof.
  intros H0 H8 Hv.
  set (b := block_size d / 8) in *.
  assert (Hinit : BaseMode_init m (Some d) = mkMode m (Some d) b (iv d)) by reflexivity.
  rewrite Hinit. unfold mode_encrypt. cbn [des kind block_size_bytes mode_iv].
  assert (Hpad : forall Q, b < 0 -> pad Q b = Err ValueError).
  { intros Q Hneg. unfold pad.
    replace (b =? 0) with false by (symmetry; apply Z.eqb_neq; lia).
    pose proof (Z.mod_neg_bound (Z.of_nat (length Q)) b Hneg).
    replace ((b - Z.of_nat (length Q) mod b) =? 0) with false
      by (symmetry; apply Z.eqb_neq; lia).
    replace ((b - Z.of_nat (length Q) mod b <? 0)) with true
      by (symmetry; apply Z.ltb_lt; lia). reflexivity. }
  assert (Hblocks : forall Q w, 0 < b ->
    (exists blk rest, (padded <- pad Q b;; get_blocks (mkMode m (Some d) b w) padded)
                      = Ok (blk :: rest) /\ Z.of_nat (length blk) = b) \/
    pad Q b = Err ValueError).
  { intros Q w Hpos. destruct (pad_shape Q b Hpos) as [(padded & Ep & Hne & Hl)|Ep];
      [left|right; exact Ep].
    rewrite Ep. cbn [bind]. unfold get_blocks. cbn [block_size_bytes].
    replace (b =? 0) with false by (symmetry; apply Z.eqb_neq; lia).
    replace (b <? 0) with false by (symmetry; apply Z.ltb_ge; lia).
    destruct (slices_first (Z.to_nat b) padded) as (blk & rest & Es & Hlb); [lia|lia|].
    rewrite Es. exists blk, rest. split; [reflexivity|lia]. }
  assert (Hbad : forall B, Z.of_nat (length B) = b -> encrypt_block d B = Err ValueError).
  { intros B HB. unfold encrypt_block. apply process_block_bad_length. lia. }
  destruct m;
  [destruct (Z_lt_ge_dec b 0) as [Hneg|Hpos];
   [rewrite Hpad by assumption; reflexivity|];
   destruct (Hblocks P (iv d) ltac:(lia)) as [(blk & rest & E & Hl)|E];
   [destruct (pad P b) as [padded|]; cbn [bind] in E |- *; [|discriminate];
    rewrite E; cbn [bind mapM]; rewrite Hbad by assumption; reflexivity
   |rewrite E; reflexivity]|..].
  all: destruct (Hv ltac:(discriminate)) as (Hiv & Hlv & Hbv);
    rewrite Hiv;
    assert (Hpos : 0 < b) by (destruct v; simpl in Hlv; lia);
    assert (Ht : iv_truthy (Some v) = Some v) by (destruct v; [simpl in Hlv; lia|reflexivity]);
    rewrite Ht;
    (destruct (Hblocks P (Some v) Hpos) as [(blk & rest & E & Hl)|E];
     [destruct (pad P b) as [padded|]; cbn [bind] in E |- *; [|discriminate];
      rewrite E; cbn [bind] | rewrite E; reflexivity]).
  - cbn [cbc_encrypt_loop]. rewrite Hbad; [reflexivity|].
    rewrite bxor_length. lia.
  - cbn [cfb_encrypt_loop]. rewrite Hbad by assumption. reflexivity.
  - cbn [ofb_loop]. rewrite Hbad by assumption. reflexivity.
  - cbn [ctr_loop]. pose proof (int_from_bytes_bound v Hbv) as Hr.
    rewrite Hlv in Hr. unfold int_to_bytes.
    replace (b <? 0) with false by (symmetry; apply Z.ltb_ge; lia).
    replace ((int_from_bytes v <? 0) || (256 ^ b <=? int_from_bytes v)) with false
      by (symmetry; apply orb_false_iff; split; [apply Z.ltb_ge|apply Z.leb_gt]; lia).
    cbn [bind]. rewrite Hbad; [reflexivity|].
    destruct (to_bytes_be_shape (Z.to_nat b) (int_from_bytes v)) as [Hl' _].
    rewrite Hl'. lia.
Qed.

(** X11: with an engine whose block size is below 8 bits, [encrypt] raises
    [ZeroDivisionError] (in [pad]) in ECB and, given a non-empty IV, in the
    other modes; ECB, CBC and CFB [decrypt] raise [ValueError]. *)
Theorem block_size_below_8 (m : ModeKind) (d : DES) (P C : bytes) :
  0 <= block_size d < 8 ->
  (m <> ECB -> iv_truthy (iv d) <> None) ->
  mode_encrypt (BaseMode_init m (Some d)) P = Err ZeroDivisionError /\
  (m <> OFB -> m <> CTR -> mode_decrypt (BaseMode_init m (Some d)) C = Err ValueError).
Proof.
  intros Hbs Hiv.
  assert (Hinit : BaseMode_init m (Some d) = mkMode m (Some d) 0 (iv d))
    by (unfold BaseMode_init; f_equal; apply Z.div_small; lia).
  rewrite Hinit. unfold mode_encrypt, mode_decrypt.
  cbn [des kind block_size_bytes mode_iv].
  destruct m; [split; reflexivity|..];
    (destruct (iv_truthy (iv d)) as [v|] eqn:E;
     [|exfalso; apply Hiv; [discriminate|reflexivity]]);
    split; try reflexivity; intros H1 H2; congruence.
Qed.

Lemma firstn_repeat_min {A : Type} (x : A) (n m : nat) :
  firstn n (repeat x m) = repeat x (Nat.min n m).
Proof.
  revert m. induction n as [|n IH]; intros [|m]; try reflexivity.
  cbn. f_equal. apply IH.
Qed.

Lemma normalised_key (k : bytes) :
  (if (length k <? 8)%nat then k ++ repeat 0 (8 - length k)
   else if (8 <? length k)%nat then firstn 8 k
   else k) = firstn 8 (k ++ repeat 0 8).
Proof.
  rewrite firstn_app.
  destruct (length k <? 8)%nat eqn:E1; [|destruct (8 <? length k)%nat eqn:E2].
  - apply Nat.ltb_lt in E1. rewrite firstn_all2 by lia.
    rewrite firstn_repeat_min. f_equal. f_equal. lia.
  - apply Nat.ltb_lt in E2. replace (8 - length k)%nat with 0%nat by lia.
    rewrite app_nil_r. reflexivity.
  - apply Nat.ltb_ge in E1. apply Nat.ltb_ge in E2.
    replace (8 - length k)%nat with 0%nat by lia.
    rewrite app_nil_r, firstn_all2 by lia. reflexivity.
Qed.

(** X13: two keys that agree on their first eight bytes, after zero-padding,
    give the same engine. *)
Theorem DES_init_key_equiv (k1 k2 : bytes) (bs R kl : Z) (v : option bytes) :
  firstn 8 (k1 ++ repeat 0 8) = firstn 8 (k2 ++ repeat 0 8) ->
  DES_init k1 bs R kl v = DES_init k2 bs R kl v.
Proof.
  intros H. unfold DES_init. rewrite !normalised_key, H. reflexivity.
Qed.

Section KeyPeriod.
Local Open Scope nat_scope.

Lemma nth_rotl (s : bits) (n k : nat) (dflt : bool) :
  (k < length s)%nat -> nth k (rotl s n) dflt = nth ((k + n) mod length s) s dflt.
Proof.
  intros Hk. unfold rotl. set (len := length s) in *.
  assert (Hm : (n mod len < len)%nat) by (apply Nat.mod_upper_bound; lia).
  rewrite (Nat.Div0.add_mod k n len). rewrite (Nat.mod_small k len Hk).
  set (m := n mod len) in *.
  destruct (Nat.lt_ge_cases k (len - m)).
  - rewrite app_nth1 by (rewrite length_skipn; lia). rewrite nth_skipn.
    rewrite Nat.mod_small by lia. f_equal; lia.
  - rewrite app_nth2 by (rewrite length_skipn; lia). rewrite nth_firstn, length_skipn. fold len.
    replace ((k - (len - m) <? m)%nat) with true by (symmetry; apply Nat.ltb_lt; lia).
    f_equal. apply Nat.mod_unique with 1; lia.
Qed.

Lemma rotl_rotl (s : bits) (a b : nat) : rotl (rotl s a) b = rotl s (a + b).
Proof.
  apply nth_ext with (d := false) (d' := false); [rewrite !rotl_length; reflexivity|].
  intros k Hk. rewrite !rotl_length in Hk.
  rewrite nth_rotl by (rewrite rotl_length; exact Hk).
  rewrite rotl_length.
  rewrite nth_rotl by (apply Nat.mod_upper_bound; lia).
  rewrite nth_rotl by exact Hk.
  f_equal. rewrite Nat.add_mod_idemp_l by lia. f_equal. lia.
Qed.

Lemma rotl_0 (s : bits) : rotl s 0 = s.
Proof.
  unfold rotl. rewrite Nat.Div0.mod_0_l. cbn [skipn firstn]. apply app_nil_r.
Qed.

Lemma rotl_add_len (s : bits) (n : nat) : rotl s (n + length s) = rotl s n.
Proof.
  unfold rotl. destruct (length s) eqn:E.
  - destruct s; [|discriminate]. rewrite !skipn_nil, !firstn_nil. reflexivity.
  - replace (n + S n0)%nat with (n + 1 * S n0)%nat by lia.
    rewrite Nat.mod_add by lia. reflexivity.
Qed.

Lemma halves_after_rotl (C D : bits) (i : nat) :
  halves_after C D i = (rotl C (cum_rotation i), rotl D (cum_rotation i)).
Proof.
  induction i as [|i IH]; cbn [halves_after cum_rotation].
  - rewrite !rotl_0. reflexivity.
  - rewrite IH, !rotl_rotl. reflexivity.
Qed.

Lemma cum_rotation_16 (i : nat) : cum_rotation (i + 16) = (cum_rotation i + 28)%nat.
Proof.
  induction i as [|i IH]; [reflexivity|].
  cbn [Nat.add cum_rotation]. rewrite IH.
  assert (rotation_amount (i + 16) = rotation_amount i) as ->.
  { unfold rotation_amount. f_equal.
    replace (i + 16)%nat with (i + 1 * 16)%nat by lia. apply Nat.mod_add. lia. }
  lia.
Qed.

Lemma nth_error_seq0 (R j : nat) : (j < R)%nat -> nth_error (seq 0 R) j = Some j.
Proof.
  intros H. rewrite (nth_error_nth' _ O) by (rewrite length_seq; exact H).
  rewrite seq_nth by exact H. reflexivity.
Qed.

End KeyPeriod.

(** X14: the key schedule repeats with period 16: when the engine has more than
    16 rounds, subkey [i + 16] equals subkey [i], because the sixteen rotation
    amounts add up to 28, the length of each key half. *)
Theorem subkeys_period_16 (k : bytes) (bs R kl : Z) (v : option bytes) :
  Forall is_byte k ->
  exists d, DES_init k bs R kl v = Ok d /\
    length (subkeys d) = Z.to_nat R /\
    forall i, (i + 16 < Z.to_nat R)%nat ->
      nth_error (subkeys d) (i + 16) = nth_error (subkeys d) i.
Proof.
  intros Hk.
  destruct (DES_init_spec k bs R kl v Hk) as (d & Ed & _ & _ & _ & _ & Hkl & Hkb & Hks).
  exists d. split; [exact Ed|]. rewrite Hks.
  split; [apply key_schedule_spec_shape|].
  intros i Hi. unfold key_schedule_spec.
  rewrite !nth_error_map, !nth_error_seq0 by lia. cbn [option_map].
  f_equal.
  set (pc1 := select (bytes_to_bit_string (key d)) PC_1).
  assert (HC : length (firstn 28 pc1) = 28%nat)
    by (rewrite length_firstn; unfold pc1; rewrite select_length; reflexivity).
  assert (HD : length (skipn 28 pc1) = 28%nat)
    by (rewrite length_skipn; unfold pc1; rewrite select_length; reflexivity).
  rewrite !halves_after_rotl.
  replace (S (i + 16)) with (S i + 16)%nat by lia.
  rewrite cum_rotation_16.
  rewrite <- HC at 1. rewrite rotl_add_len.
  rewrite <- HD at 2. rewrite rotl_add_len.
  reflexivity.
Qed.

Section Swap.

Lemma firstn_skipn_app {A : Type} (X Y : list A) :
  firstn (length X) (X ++ Y) = X /\ skipn (length X) (X ++ Y) = Y.
Proof. induction X as [|x X IH]; [split; reflexivity|]. cbn. rewrite (proj1 IH), (proj2 IH). split; reflexivity. Qed.

Lemma bytes_to_bit_string_app (X Y : bytes) :
  bytes_to_bit_string (X ++ Y) = bytes_to_bit_string X ++ bytes_to_bit_string Y.
Proof. unfold bytes_to_bit_string. rewrite map_app, concat_app. reflexivity. Qed.

End Swap.

(** X15: an engine with a round count of zero or less runs no Feistel round:
    [encrypt_block] and [decrypt_block] map an 8-byte block to its two 4-byte
    halves swapped. *)
Theorem zero_rounds_swap (d : DES) (B : bytes) :
  rounds d <= 0 -> length B = 8%nat -> Forall is_byte B ->
  encrypt_block d B = Ok (skipn 4 B ++ firstn 4 B) /\
  decrypt_block d B = Ok (skipn 4 B ++ firstn 4 B).
Proof.
  intros Hr Hl Hb.
  assert (Hsplit : B = firstn 4 B ++ skipn 4 B) by (symmetry; apply firstn_skipn).
  assert (Hb' := Hb). rewrite Hsplit in Hb'. apply Forall_app in Hb' as [H1 H2].
  assert (Hl1 : length (firstn 4 B) = 4%nat) by (rewrite length_firstn; lia).
  assert (Hx : length (bytes_to_bit_string (firstn 4 B)) = 32%nat)
    by (rewrite bytes_to_bit_string_length by exact H1; lia).
  assert (Hgoal : forall dm, process_block d B dm = Ok (skipn 4 B ++ firstn 4 B)).
  { intros dm. unfold process_block.
    rewrite Hl. cbn [Nat.eqb negb].
    replace (Z.to_nat (rounds d)) with 0%nat by lia. cbn [seq round_loop bind].
    rewrite Hsplit at 1 2. rewrite bytes_to_bit_string_app.
    rewrite <- Hx. rewrite (proj1 (firstn_skipn_app _ _)), (proj2 (firstn_skipn_app _ _)).
    rewrite <- bytes_to_bit_string_app.
    rewrite bit_string_to_bytes_roundtrip by (apply Forall_app; split; assumption).
    reflexivity. }
  split; apply Hgoal.
Qed.

(** X16: [unpad] checks only the last byte: any [n - 1] filler bytes followed
    by the byte [n], with [1 <= n <= block_size], are stripped whatever the
    filler holds; a last byte outside [[1, block_size]] leaves the data as it
    is, without an error. *)
Theorem unpad_last_byte_only (P x : bytes) (bs : Z) (data : bytes) :
  Z.of_nat (length x) + 1 <= bs ->
  unpad (P ++ x ++ [Z.of_nat (length x) + 1]) bs = P /\
  (last data 0 < 1 \/ bs < last data 0 -> unpad data bs = data).
Proof.
  intros Hbs. split.
  - unfold unpad.
    destruct (P ++ x ++ [Z.of_nat (length x) + 1]) as [|b0 l0] eqn:E;
      [apply app_eq_nil in E as [_ E]; apply app_eq_nil in E as [_ E];
       discriminate|rewrite <- E; clear E b0 l0].
    rewrite app_assoc, last_last.
    replace ((Z.of_nat (length x) + 1 <? 1) || (bs <? Z.of_nat (length x) + 1)
             || (Z.of_nat (length ((P ++ x) ++ [Z.of_nat (length x) + 1]))
                 <? Z.of_nat (length x) + 1)) with false.
    2:{ symmetry. rewrite !length_app. cbn [length].
        repeat rewrite orb_false_iff. repeat split; first [apply Z.ltb_ge|idtac]; lia. }
    rewrite <- app_assoc, !length_app. cbn [length].
    replace (length P + (length x + 1) - Z.to_nat (Z.of_nat (length x) + 1))%nat
      with (length P) by lia.
    apply (proj1 (firstn_skipn_app P _)).
  - intros Hout. unfold unpad. destruct data as [|b l]; [reflexivity|].
    replace ((last (b :: l) 0 <? 1) || (bs <? last (b :: l) 0)) with true; [reflexivity|].
    symmetry. apply orb_true_iff. destruct Hout; [left|right]; apply Z.ltb_lt; lia.
Qed.

Lemma block_roundtrip_rev (d : DES) (B C : bytes) :
  length (subkeys d) = Z.to_nat (rounds d) ->
  length B = 8%nat -> Forall is_byte B ->
  decrypt_block d B = Ok C -> encrypt_block d C = Ok B.
Proof.
  intros Hn Hl Hb H.
  set (d' := mkDES (block_size d) (rounds d) (keylen d) (iv d) (key d) (rev (subkeys d))).
  assert (E1 : forall X, decrypt_block d X = encrypt_block d' X) by reflexivity.
  assert (E2 : forall X, encrypt_block d X = decrypt_block d' X).
  { intros X. unfold encrypt_block, decrypt_block, process_block.
    cbn [d' subkeys rounds]. rewrite rev_involutive. reflexivity. }
  assert (Hn' : length (subkeys d') = Z.to_nat (rounds d'))
    by (change (length (rev (subkeys d)) = Z.to_nat (rounds d)); rewrite length_rev; exact Hn).
  rewrite E2. apply (block_roundtrip d' B C Hn' Hl Hb).
  rewrite <- E1. exact H.
Qed.

(** X17: an engine built by [DES.__init__] (any key, any round count) raises
    [ValueError] on a block that is not 8 bytes long, in both directions, and
    on an 8-byte block returns an 8-byte block that the other direction maps
    back. *)
Theorem engine_block_length (k : bytes) (bs R kl : Z) (v : option bytes) (B : bytes) :
  Forall is_byte k -> Forall is_byte B ->
  exists d, DES_init k bs R kl v = Ok d /\
    (length B <> 8%nat ->
       encrypt_block d B = Err ValueError /\ decrypt_block d B = Err ValueError) /\
    (length B = 8%nat ->
       exists C, encrypt_block d B = Ok C /\ blk8 C /\ decrypt_block d C = Ok B) /\
    (length B = 8%nat ->
       exists C, decrypt_block d B = Ok C /\ blk8 C /\ encrypt_block d C = Ok B).
Proof.
  intros Hk Hb.
  destruct (DES_init_wf k bs R kl v Hk) as (d & Ed & _ & _ & Hn & H48).
  exists d. split; [exact Ed|]. split; [|split].
  - intros Hl. unfold encrypt_block, decrypt_block.
    split; apply process_block_bad_length; lia.
  - intros Hl. apply enc_ok; auto. split; assumption.
  - intros Hl. destruct (dec_ok d Hn H48 B (conj Hl Hb)) as (C & E & HC).
    exists C. split; [exact E|]. split; [exact HC|].
    apply (block_roundtrip_rev d B C Hn Hl Hb E).
Qed.

(** X18: [bit_string_to_bytes] inverts [bytes_to_bit_string], which spends 8
    bits per byte; conversely a bit string whose length is a multiple of 8
    survives the trip through bytes. *)
Theorem bit_string_bytes_roundtrip (B : bytes) (s : bits) :
  Forall is_byte B -> Nat.modulo (length s) 8 = 0%nat ->
  bit_string_to_bytes (bytes_to_bit_string B) = B /\
  length (bytes_to_bit_string B) = (8 * length B)%nat /\
  bytes_to_bit_string (bit_string_to_bytes s) = s.
Proof.
  intros HB Hs. split; [apply bit_string_to_bytes_roundtrip; exact HB|].
  split; [apply bytes_to_bit_string_length; exact HB|].
  apply (bytes_to_bit_string_roundtrip s (length s / 8)).
  pose proof (Nat.div_mod (length s) 8 ltac:(lia)). lia.
Qed.

Lemma rotl_mod (s : bits) (n : nat) : rotl s n = rotl s (Nat.modulo n (length s)).
Proof. unfold rotl. rewrite Nat.Div0.mod_mod. reflexivity. Qed.

Lemma rotate_left_Z (s : bits) (n : Z) :
  length s <> O ->
  rotate_left s n = Ok (rotl s (Z.to_nat (n mod Z.of_nat (length s)))).
Proof.
  intros H. pose proof (Z.mod_pos_bound n (Z.of_nat (length s)) ltac:(lia)) as Hb.
  unfold rotate_left, rotl.
  rewrite (Nat.mod_small (Z.to_nat _) (length s)) by lia.
  destruct (length s); [congruence|reflexivity].
Qed.

(** X19: [rotate_left] raises [ZeroDivisionError] on the empty string; on a
    non-empty string, for any integer amounts (negative ones rotate right),
    two rotations compose into one by the sum of the amounts, a rotation by
    [-a] undoes a rotation by [a], and a rotation by the length is the
    identity. *)
Theorem rotate_left_compose (s : bits) (a b : Z) :
  rotate_left [] a = Err ZeroDivisionError /\
  (s <> [] ->
   (s' <- rotate_left s a;; rotate_left s' b) = rotate_left s (a + b) /\
   (s' <- rotate_left s a;; rotate_left s' (- a)) = Ok s /\
   rotate_left s (Z.of_nat (length s)) = Ok s).
Proof.
  split; [reflexivity|]. intros Hs.
  assert (Hl : length s <> 0%nat) by (destruct s; [congruence|discriminate]).
  set (L := Z.of_nat (length s)).
  assert (HL : 0 < L) by (unfold L; lia).
  assert (Hcomp : forall x y,
    (s' <- rotate_left s x;; rotate_left s' y) = rotate_left s (x + y)).
  { intros x y.
    rewrite rotate_left_Z by exact Hl. cbn [bind].
    rewrite rotate_left_Z by (rewrite rotl_length; exact Hl).
    rewrite rotate_left_Z by exact Hl. rewrite rotl_length, rotl_rotl.
    fold L. f_equal.
    rewrite (rotl_mod s (_ + _)), (rotl_mod s (Z.to_nat ((x + y) mod L))).
    f_equal. apply Nat2Z.inj.
    pose proof (Z.mod_pos_bound x L HL). pose proof (Z.mod_pos_bound y L HL).
    pose proof (Z.mod_pos_bound (x + y) L HL).
    rewrite !Nat2Z.inj_mod, Nat2Z.inj_add, !Z2Nat.id by lia. fold L.
    rewrite Z.mod_mod by lia. rewrite <- Z.add_mod by lia. reflexivity. }
  assert (H0 : rotate_left s 0 = Ok s)
    by (rewrite rotate_left_Z by exact Hl; rewrite Z.mod_0_l by lia; f_equal; apply rotl_0).
  split; [apply Hcomp|]. split.
  - rewrite Hcomp, Z.add_opp_diag_r. exact H0.
  - rewrite rotate_left_Z by exact Hl. fold L. rewrite Z.mod_same by lia.
    f_equal. apply rotl_0.
Qed.

(** X20: the length and index checks of [_feistel_function] never fire on the
    inputs the rounds give it: for a 32-bit half and a 48-bit subkey it
    returns 32 bits; a half shorter than 32 bits makes the expansion raise
    [IndexError]. *)
Theorem feistel_total (R K : bits) :
  (length R = 32%nat -> length K = 48%nat ->
   exists out, feistel_function R K = Ok out /\ length out = 32%nat) /\
  ((length R < 32)%nat -> feistel_function R K = Err IndexError).
Proof.
  split; [apply feistel_ok|].
  intros HR. unfold feistel_function. cbn [E_BOX permute].
  replace (nth_error R (32 - 1)) with (@None bool)
    by (symmetry; apply nth_error_None; lia).
  reflexivity.
Qed.

(** * Instances of the further properties *)

Lemma ecb_cbc_cfb_roundtrip_witness :
  CBC <> OFB /\ CBC <> CTR /\ Forall is_byte KEY0 /\ length IV0 = 8%nat /\
  Forall is_byte IV0 /\ Forall is_byte HELLOALI /\
  exists d C, DES_init KEY0 64 16 64 (Some IV0) = Ok d /\
    mode_encrypt (BaseMode_init CBC (Some d)) HELLOALI = Ok C /\
    mode_decrypt (BaseMode_init CBC (Some d)) C = Ok HELLOALI.
Proof.
  assert (H1 : CBC <> OFB) by discriminate.
  assert (H2 : CBC <> CTR) by discriminate.
  assert (H3 : Forall is_byte KEY0) by (unfold KEY0; bytes_ok).
  assert (H4 : length IV0 = 8%nat) by reflexivity.
  assert (H5 : Forall is_byte IV0) by (unfold IV0; bytes_ok).
  assert (H6 : Forall is_byte HELLOALI) by (unfold HELLOALI; bytes_ok).
  split; [exact H1|]. split; [exact H2|]. split; [exact H3|].
  split; [exact H4|]. split; [exact H5|]. split; [exact H6|].
  exact (ecb_cbc_cfb_roundtrip CBC KEY0 16 64 IV0 HELLOALI H1 H2 H3 H4 H5 H6).
Defined.

Lemma mode_ciphertext_length_witness :
  Forall is_byte KEY0 /\ length IV0 = 8%nat /\ Forall is_byte IV0 /\
  Forall is_byte HELLOALI /\
  (CTR = CTR -> int_from_bytes IV0 + Z.of_nat (length HELLOALI / 8 + 1) <= 2 ^ 64) /\
  exists d C, DES_init KEY0 64 16 64 (Some IV0) = Ok d /\
    mode_encrypt (BaseMode_init CTR (Some d)) HELLOALI = Ok C /\
    length C = (8 * (length HELLOALI / 8 + 1))%nat.
Proof.
  assert (H1 : Forall is_byte KEY0) by (unfold KEY0; bytes_ok).
  assert (H2 : length IV0 = 8%nat) by reflexivity.
  assert (H3 : Forall is_byte IV0) by (unfold IV0; bytes_ok).
  assert (H4 : Forall is_byte HELLOALI) by (unfold HELLOALI; bytes_ok).
  assert (H5 : CTR = CTR -> int_from_bytes IV0 + Z.of_nat (length HELLOALI / 8 + 1) <= 2 ^ 64)
    by (intros _; vm_compute; discriminate).
  split; [exact H1|]. split; [exact H2|]. split; [exact H3|].
  split; [exact H4|]. split; [exact H5|].
  exact (mode_ciphertext_length CTR KEY0 16 64 IV0 HELLOALI H1 H2 H3 H4 H5).
Defined.

Lemma ofb_ctr_decrypt_encrypt_witness :
  (OFB = OFB \/ OFB = CTR) /\ Forall is_byte KEY0 /\ length IV0 = 8%nat /\
  Forall is_byte IV0 /\
  (OFB = CTR -> int_from_bytes IV0 + Z.of_nat (length HELLOALI / 8 + 2) <= 2 ^ 64) /\
  let n := 8 - Z.of_nat (length HELLOALI) mod 8 in
  exists d C T, DES_init KEY0 64 16 64 (Some IV0) = Ok d /\
    mode_encrypt (BaseMode_init OFB (Some d)) HELLOALI = Ok C /\
    mode_decrypt (BaseMode_init OFB (Some d)) C =
      Ok (HELLOALI ++ repeat n (Z.to_nat n) ++ T) /\
    length T = 8%nat.
Proof.
  assert (H0 : OFB = OFB \/ OFB = CTR) by (left; reflexivity).
  assert (H1 : Forall is_byte KEY0) by (unfold KEY0; bytes_ok).
  assert (H2 : length IV0 = 8%nat) by reflexivity.
  assert (H3 : Forall is_byte IV0) by (unfold IV0; bytes_ok).
  assert (H5 : OFB = CTR -> int_from_bytes IV0 + Z.of_nat (length HELLOALI / 8 + 2) <= 2 ^ 64)
    by (intros H; discriminate H).
  split; [exact H0|]. split; [exact H1|]. split; [exact H2|].
  split; [exact H3|]. split; [exact H5|].
  exact (ofb_ctr_decrypt_encrypt OFB KEY0 16 64 IV0 HELLOALI H0 H1 H2 H3 H5).
Defined.

Lemma ofb_ctr_keystream_reuse_witness :
  (CTR = OFB \/ CTR = CTR) /\ Forall is_byte KEY0 /\ length IV0 = 8%nat /\
  Forall is_byte IV0 /\ length HELLOALI = length FF8 /\
  (CTR = CTR -> int_from_bytes IV0 + Z.of_nat (length HELLOALI / 8 + 1) <= 2 ^ 64) /\
  exists d C C', DES_init KEY0 64 16 64 (Some IV0) = Ok d /\
    mode_encrypt (BaseMode_init CTR (Some d)) HELLOALI = Ok C /\
    mode_encrypt (BaseMode_init CTR (Some d)) FF8 = Ok C' /\
    bxor C C' =
      bxor HELLOALI FF8 ++ repeat 0 (Z.to_nat (8 - Z.of_nat (length HELLOALI) mod 8)).
Proof.
  assert (H0 : CTR = OFB \/ CTR = CTR) by (right; reflexivity).
  assert (H1 : Forall is_byte KEY0) by (unfold KEY0; bytes_ok).
  assert (H2 : length IV0 = 8%nat) by reflexivity.
  assert (H3 : Forall is_byte IV0) by (unfold IV0; bytes_ok).
  assert (H4 : length HELLOALI = length FF8) by reflexivity.
  assert (H5 : CTR = CTR -> int_from_bytes IV0 + Z.of_nat (length HELLOALI / 8 + 1) <= 2 ^ 64)
    by (intros _; vm_compute; discriminate).
  split; [exact H0|]. split; [exact H1|]. split; [exact H2|].
  split; [exact H3|]. split; [exact H4|]. split; [exact H5|].
  exact (ofb_ctr_keystream_reuse CTR KEY0 16 64 IV0 HELLOALI FF8 H0 H1 H2 H3 H4 H5).
Defined.

Lemma ecb_blockwise_witness :
  block_size ENGINE0 = 64 /\ (length HELLOALI mod 8 = 0)%nat /\
  mode_encrypt (BaseMode_init ECB (Some ENGINE0)) (HELLOALI ++ FF8) =
  (C1 <- mapM (encrypt_block ENGINE0) (slices 8 HELLOALI);;
   C2 <- mode_encrypt (BaseMode_init ECB (Some ENGINE0)) FF8;;
   Ok (concat C1 ++ C2)).
Proof.
  assert (H1 : block_size ENGINE0 = 64) by reflexivity.
  assert (H2 : (length HELLOALI mod 8 = 0)%nat) by reflexivity.
  split; [exact H1|]. split; [exact H2|].
  exact (ecb_blockwise ENGINE0 HELLOALI FF8 H1 H2).
Defined.

Lemma cbc_cfb_decrypt_local_witness :
  block_size ENGINE0 = 64 /\ iv ENGINE0 = Some IV0 /\ IV0 <> [] /\
  mode_decrypt (BaseMode_init CBC (Some ENGINE0)) HELLOALI =
    (out <- mapM (fun pc => x <- decrypt_block ENGINE0 (snd pc);; Ok (bxor x (fst pc)))
                 (combine (IV0 :: slices 8 HELLOALI) (slices 8 HELLOALI));;
     Ok (unpad (concat out) 8)) /\
  mode_decrypt (BaseMode_init CFB (Some ENGINE0)) HELLOALI =
    (out <- mapM (fun pc => e <- encrypt_block ENGINE0 (fst pc);; Ok (bxor (snd pc) e))
                 (combine (IV0 :: slices 8 HELLOALI) (slices 8 HELLOALI));;
     Ok (unpad (concat out) 8)).
Proof.
  assert (H1 : block_size ENGINE0 = 64) by reflexivity.
  assert (H2 : iv ENGINE0 = Some IV0) by reflexivity.
  assert (H3 : IV0 <> []) by discriminate.
  split; [exact H1|]. split; [exact H2|]. split; [exact H3|].
  exact (cbc_cfb_decrypt_local ENGINE0 IV0 HELLOALI H1 H2 H3).
Defined.

Lemma ecb_cbc_decrypt_length_witness :
  (CBC = ECB \/ CBC = CBC) /\ Forall is_byte KEY0 /\ length IV0 = 8%nat /\
  Forall is_byte IV0 /\ Forall is_byte HELLOALI /\
  exists d, DES_init KEY0 64 16 64 (Some IV0) = Ok d /\
    ((length HELLOALI mod 8 = 0)%nat ->
       exists Q, mode_decrypt (BaseMode_init CBC (Some d)) HELLOALI = Ok Q) /\
    ((length HELLOALI mod 8 <> 0)%nat ->
       mode_decrypt (BaseMode_init CBC (Some d)) HELLOALI = Err ValueError).
Proof.
  assert (H0 : CBC = ECB \/ CBC = CBC) by (right; reflexivity).
  assert (H1 : Forall is_byte KEY0) by (unfold KEY0; bytes_ok).
  assert (H2 : length IV0 = 8%nat) by reflexivity.
  assert (H3 : Forall is_byte IV0) by (unfold IV0; bytes_ok).
  assert (H4 : Forall is_byte HELLOALI) by (unfold HELLOALI; bytes_ok).
  split; [exact H0|]. split; [exact H1|]. split; [exact H2|].
  split; [exact H3|]. split; [exact H4|].
  exact (ecb_cbc_decrypt_length CBC KEY0 16 64 IV0 HELLOALI H0 H1 H2 H3 H4).
Defined.

Lemma cfb_decrypt_total_witness :
  Forall is_byte KEY0 /\ length IV0 = 8%nat /\ Forall is_byte IV0 /\
  Forall is_byte [72; 73] /\
  exists d Q, DES_init KEY0 64 16 64 (Some IV0) = Ok d /\
    mode_decrypt (BaseMode_init CFB (Some d)) [72; 73] = Ok Q.
Proof.
  assert (H1 : Forall is_byte KEY0) by (unfold KEY0; bytes_ok).
  assert (H2 : length IV0 = 8%nat) by reflexivity.
  assert (H3 : Forall is_byte IV0) by (unfold IV0; bytes_ok).
  assert (H4 : Forall is_byte [72; 73]) by bytes_ok.
  split; [exact H1|]. split; [exact H2|]. split; [exact H3|]. split; [exact H4|].
  exact (cfb_decrypt_total KEY0 16 64 IV0 [72; 73] H1 H2 H3 H4).
Defined.

Lemma decrypt_empty_witness :
  Forall is_byte KEY0 /\ length IV0 = 8%nat /\ Forall is_byte IV0 /\
  exists d Q, DES_init KEY0 64 16 64 (Some IV0) = Ok d /\
    mode_decrypt (BaseMode_init OFB (Some d)) [] = Ok Q /\
    (OFB = OFB \/ OFB = CTR -> length Q = 8%nat) /\
    (OFB <> OFB -> OFB <> CTR -> Q = []).
Proof.
  assert (H1 : Forall is_byte KEY0) by (unfold KEY0; bytes_ok).
  assert (H2 : length IV0 = 8%nat) by reflexivity.
  assert (H3 : Forall is_byte IV0) by (unfold IV0; bytes_ok).
  split; [exact H1|]. split; [exact H2|]. split; [exact H3|].
  exact (decrypt_empty OFB KEY0 16 64 IV0 H1 H2 H3).
Defined.

Lemma block_size_not_64_witness :
  block_size ENGINE32 / 8 <> 0 /\ block_size ENGINE32 / 8 <> 8 /\
  (CBC <> ECB -> iv ENGINE32 = Some [1; 2; 3; 4] /\
     Z.of_nat (length [1; 2; 3; 4]) = block_size ENGINE32 / 8 /\
     Forall is_byte [1; 2; 3; 4]) /\
  mode_encrypt (BaseMode_init CBC (Some ENGINE32)) HELLOALI = Err ValueError.
Proof.
  assert (H1 : block_size ENGINE32 / 8 <> 0) by discriminate.
  assert (H2 : block_size ENGINE32 / 8 <> 8) by discriminate.
  assert (H3 : CBC <> ECB -> iv ENGINE32 = Some [1; 2; 3; 4] /\
     Z.of_nat (length [1; 2; 3; 4]) = block_size ENGINE32 / 8 /\
     Forall is_byte [1; 2; 3; 4])
    by (intros _; split; [reflexivity|]; split; [reflexivity|bytes_ok]).
  split; [exact H1|]. split; [exact H2|]. split; [exact H3|].
  exact (block_size_not_64 CBC ENGINE32 [1; 2; 3; 4] HELLOALI H1 H2 H3).
Defined.

Lemma block_size_below_8_witness :
  0 <= block_size ENGINE_BS0 < 8 /\
  (CBC <> ECB -> iv_truthy (iv ENGINE_BS0) <> None) /\
  mode_encrypt (BaseMode_init CBC (Some ENGINE_BS0)) HELLOALI = Err ZeroDivisionError /\
  (CBC <> OFB -> CBC <> CTR ->
     mode_decrypt (BaseMode_init CBC (Some ENGINE_BS0)) HELLOALI = Err ValueError).
Proof.
  assert (H1 : 0 <= block_size ENGINE_BS0 < 8) by (cbn; lia).
  assert (H2 : CBC <> ECB -> iv_truthy (iv ENGINE_BS0) <> None)
    by (intros _; discriminate).
  split; [exact H1|]. split; [exact H2|].
  exact (block_size_below_8 CBC ENGINE_BS0 HELLOALI HELLOALI H1 H2).
Defined.

Lemma DES_init_key_equiv_witness :
  firstn 8 ([77; 89; 83] ++ repeat 0 8) = firstn 8 ([77; 89; 83; 0] ++ repeat 0 8) /\
  DES_init [77; 89; 83] 64 16 64 None = DES_init [77; 89; 83; 0] 64 16 64 None.
Proof.
  assert (H : firstn 8 ([77; 89; 83] ++ repeat 0 8) =
              firstn 8 ([77; 89; 83; 0] ++ repeat 0 8)) by reflexivity.
  split; [exact H|].
  exact (DES_init_key_equiv [77; 89; 83] [77; 89; 83; 0] 64 16 64 None H).
Defined.

Lemma subkeys_period_16_witness :
  Forall is_byte KEY0 /\
  exists d, DES_init KEY0 64 40 64 None = Ok d /\
    length (subkeys d) = Z.to_nat 40 /\
    forall i, (i + 16 < Z.to_nat 40)%nat ->
      nth_error (subkeys d) (i + 16) = nth_error (subkeys d) i.
Proof.
  assert (H1 : Forall is_byte KEY0) by (unfold KEY0; bytes_ok).
  split; [exact H1|].
  exact (subkeys_period_16 KEY0 64 40 64 None H1).
Defined.

Lemma zero_rounds_swap_witness :
  rounds ENGINE_R0 <= 0 /\ length HELLOALI = 8%nat /\ Forall is_byte HELLOALI /\
  encrypt_block ENGINE_R0 HELLOALI = Ok (skipn 4 HELLOALI ++ firstn 4 HELLOALI) /\
  decrypt_block ENGINE_R0 HELLOALI = Ok (skipn 4 HELLOALI ++ firstn 4 HELLOALI).
Proof.
  assert (H1 : rounds ENGINE_R0 <= 0) by (cbn; lia).
  assert (H2 : length HELLOALI = 8%nat) by reflexivity.
  assert (H3 : Forall is_byte HELLOALI) by (unfold HELLOALI; bytes_ok).
  split; [exact H1|]. split; [exact H2|]. split; [exact H3|].
  exact (zero_rounds_swap ENGINE_R0 HELLOALI H1 H2 H3).
Defined.

Lemma unpad_last_byte_only_witness :
  Z.of_nat (length [9; 200]) + 1 <= 8 /\
  unpad (HELLOALI ++ [9; 200] ++ [Z.of_nat (length [9; 200]) + 1]) 8 = HELLOALI /\
  (last FF8 0 < 1 \/ 8 < last FF8 0 -> unpad FF8 8 = FF8).
Proof.
  assert (H : Z.of_nat (length [9; 200]) + 1 <= 8) by (cbn; lia).
  split; [exact H|].
  exact (unpad_last_byte_only HELLOALI [9; 200] 8 FF8 H).
Defined.

Lemma engine_block_length_witness :
  Forall is_byte KEY0 /\ Forall is_byte HELLOALI /\
  exists d, DES_init KEY0 64 16 64 None = Ok d /\
    (length HELLOALI <> 8%nat ->
       encrypt_block d HELLOALI = Err ValueError /\
       decrypt_block d HELLOALI = Err ValueError) /\
    (length HELLOALI = 8%nat ->
       exists C, encrypt_block d HELLOALI = Ok C /\ blk8 C /\
                 decrypt_block d C = Ok HELLOALI) /\
    (length HELLOALI = 8%nat ->
       exists C, decrypt_block d HELLOALI = Ok C /\ blk8 C /\
                 encrypt_block d C = Ok HELLOALI).
Proof.
  assert (H1 : Forall is_byte KEY0) by (unfold KEY0; bytes_ok).
  assert (H2 : Forall is_byte HELLOALI) by (unfold HELLOALI; bytes_ok).
  split; [exact H1|]. split; [exact H2|].
  exact (engine_block_length KEY0 64 16 64 None HELLOALI H1 H2).
Defined.

Lemma bit_string_bytes_roundtrip_witness :
  Forall is_byte HELLOALI /\ Nat.modulo (length (repeat true 16)) 8 = 0%nat /\
  bit_string_to_bytes (bytes_to_bit_string HELLOALI) = HELLOALI /\
  length (bytes_to_bit_string HELLOALI) = (8 * length HELLOALI)%nat /\
  bytes_to_bit_string (bit_string_to_bytes (repeat true 16)) = repeat true 16.
Proof.
  assert (H1 : Forall is_byte HELLOALI) by (unfold HELLOALI; bytes_ok).
  assert (H2 : Nat.modulo (length (repeat true 16)) 8 = 0%nat) by reflexivity.
  split; [exact H1|]. split; [exact H2|].
  exact (bit_string_bytes_roundtrip HELLOALI (repeat true 16) H1 H2).
Defined.

Lemma rotate_left_compose_witness :
  [true; false; false] <> [] /\
  (s' <- rotate_left [true; false; false] 2;; rotate_left s' (-7)) =
    rotate_left [true; false; false] (2 + -7) /\
  (s' <- rotate_left [true; false; false] 2;; rotate_left s' (- 2)) =
    Ok [true; false; false] /\
  rotate_left [true; false; false] (Z.of_nat (length [true; false; false])) =
    Ok [true; false; false].
Proof.
  assert (H : [true; false; false] <> []) by discriminate.
  split; [exact H|].
  exact (proj2 (rotate_left_compose [true; false; false] 2 (-7)) H).
Defined.

Lemma feistel_total_witness :
  length (repeat false 32) = 32%nat /\ length (repeat true 48) = 48%nat /\
  (exists out, feistel_function (repeat false 32) (repeat true 48) = Ok out /\
               length out = 32%nat) /\
  (length (repeat false 31) < 32)%nat /\
  feistel_function (repeat false 31) (repeat true 48) = Err IndexError.
Proof.
  assert (H1 : length (repeat false 32) = 32%nat) by reflexivity.
  assert (H2 : length (repeat true 48) = 48%nat) by reflexivity.
  assert (H3 : (length (repeat false 31) < 32)%nat) by (cbn; lia).
  split; [exact H1|]. split; [exact H2|].
  split; [exact (proj1 (feistel_total (repeat false 32) (repeat true 48)) H1 H2)|].
  split; [exact H3|].
  exact (proj2 (feistel_total (repeat false 31) (repeat true 48)) H3).
Defined.
